(** * ThreadingTest: four locking strategies over one table of counters

    A shallow embedding of [ThreadingTest.cpp]: the [Database] class and its
    three locked subclasses, the shuffled access order, the two workload
    routines, the harness [testDatabase] and [main].

    - The methods of [Database] are functions in a small state-and-exception
      monad over the table [data_].
    - Concurrent runs are a step relation over a shared table, the lock
      objects and one record per thread.
    - A call of [getIndicesInShuffledOrder] is also given on the objects of
      the process, its array and engine at addresses of their own.
    - Time is not modelled: [sleep_for] is a step without effect. *)

From Stdlib Require Import ZArith Lia Ascii.
From stdpp Require Import base tactics option list numbers strings pretty relations gmap.

Local Open Scope Z_scope.

(** ** Machine integers *)

Module Int.

(** Two's complement reading of an integer on [w] bits. *)
Definition wrap (w : Z) (x : Z) : Z :=
  (x + 2 ^ (w - 1)) mod 2 ^ w - 2 ^ (w - 1).

(** [int64_t]. *)
Definition wrap64 (x : Z) : Z := wrap 64 x.
Definition in_int64 (x : Z) : Prop := - 2 ^ 63 <= x < 2 ^ 63.
Definition INT64_MIN : Z := - 2 ^ 63.
Definition INT64_MAX : Z := 2 ^ 63 - 1.

(** [int]: 32 bits on every platform the program targets. *)
Definition wrap32 (x : Z) : Z := wrap 32 x.
Definition in_int32 (x : Z) : Prop := - 2 ^ 31 <= x < 2 ^ 31.

(** [a += b] on [int64_t] operands: the two's complement result (signed
    overflow is undefined in C++; every target of the program wraps). *)
Definition add64 (a b : Z) : Z := wrap64 (a + b).
(** Unary minus on an [int64_t] operand. *)
Definition neg64 (a : Z) : Z := wrap64 (- a).
(** The conversion [int64_t -> int] of a [return] statement. *)
Definition to_int (x : Z) : Z := wrap32 x.

End Int.

(** ** The exception monad over the table *)

(** [std::array::at] throws [std::out_of_range]; nothing else is thrown. *)
Inductive Exn := OutOfRange.

Inductive Result (A : Type) :=
| Ok (a : A)
| Throw (e : Exn).
Arguments Ok {A} a.
Arguments Throw {A} e.

(** [std::array<int64_t, DATABASE_SIZE>]. *)
Abbreviation Table := (list Z).

(** A method body: from the table before the call to the outcome and the
    table after it. *)
Definition M (A : Type) : Type := Table -> Result A * Table.

Definition ret {A} (a : A) : M A := fun t => (Ok a, t).
Definition throw {A} (e : Exn) : M A := fun t => (Throw e, t).
Definition bind {A B} (m : M A) (k : A -> M B) : M B :=
  fun t => match m t with
           | (Ok a, t') => k a t'
           | (Throw e, t') => (Throw e, t')
           end.

Declare Scope db_scope.
Delimit Scope db_scope with db.
Notation "x <- m ;; k" := (bind m (fun x => k))
  (at level 20, m at level 99, k at level 200, only parsing) : db_scope.
Notation "m ;; k" := (bind m (fun _ => k))
  (at level 100, k at level 200, right associativity, only parsing) : db_scope.
Local Open Scope db_scope.

(** [std::this_thread::sleep_for(std::chrono::milliseconds(ms))]. *)
Definition sleep_for (ms : nat) : M unit := ret tt.

(** [data_.at(index)] as an rvalue. *)
Definition at_get (index : nat) : M Z :=
  fun t => match t !! index with
           | Some x => (Ok x, t)
           | None => (Throw OutOfRange, t)
           end.

(** [data_.at(index) = x]; the bounds check is [at]'s. *)
Definition at_set (index : nat) (x : Z) : M unit :=
  fun t => match t !! index with
           | Some _ => (Ok tt, <[index := x]> t)
           | None => (Throw OutOfRange, t)
           end.

(** ** class Database *)

(** A [size_t] index is a [nat]: it is never negative, and the program does
    no arithmetic on indices but the [%] of [SplitMutexDatabase]. *)

Module Database.

Definition DATABASE_SIZE : nat := 10.
Definition DATABASE_TYPE : string := "non-threadsafe database".

(** The constructor: [std::fill(data_.begin(), data_.end(), 0)]. *)
Definition new : Table := replicate DATABASE_SIZE 0.

(** [int readValue(size_t index) const]: the cell is an [int64_t], the
    return type is [int]. *)
Definition readValue (index : nat) : M Z :=
  sleep_for 1 ;;
  x <- at_get index ;;
  ret (Int.to_int x).

(** [void updateValue(size_t index, int64_t value)]:
    [data_.at(index) += value]. *)
Definition updateValue (index : nat) (value : Z) : M unit :=
  sleep_for 5 ;;
  x <- at_get index ;;
  at_set index (Int.add64 x value).

(** [bool isAllZero()]: [std::all_of] over the cells. *)
Definition isAllZero : M bool :=
  fun t => (Ok (forallb (fun x => x =? 0) t), t).

(** A table as a [Database] object holds it. *)
Definition wf (t : Table) : Prop :=
  length t = DATABASE_SIZE /\ Forall Int.in_int64 t.

End Database.

(** ** The four classes and their locks *)

(** The template argument of [testDatabase]. *)
Inductive DBTYPE :=
| Database
| SingleMutexDatabase
| SharedMutexDatabase
| SplitMutexDatabase.

Definition DATABASE_TYPE (V : DBTYPE) : string :=
  match V with
  | Database => Database.DATABASE_TYPE
  | SingleMutexDatabase => "single mutex database"
  | SharedMutexDatabase => "shared mutex database"
  | SplitMutexDatabase => "split mutex database"
  end.

(** The scoped lock object a method constructs on entry; its destructor
    unlocks on every way out of the method. *)
Inductive Guard :=
| lock_guard (k : nat)   (* std::lock_guard<std::mutex> on mutex number k *)
| unique_lock            (* std::unique_lock on shared_mutex_ *)
| shared_lock.           (* std::shared_lock on shared_mutex_ *)

#[global] Instance Guard_eq_dec : EqDecision Guard.
Proof. solve_decision. Defined.

(** [mutexes_.size()] of [std::array<std::mutex, DATABASE_SIZE / 2>]. *)
Definition mutexes_size : nat := (Database.DATABASE_SIZE / 2)%nat.

(** The guard of [readValue(index)] in each class; [mutex_] of
    [SingleMutexDatabase] is mutex number 0. *)
Definition read_guard (V : DBTYPE) (index : nat) : option Guard :=
  match V with
  | Database => None
  | SingleMutexDatabase => Some (lock_guard 0)
  | SharedMutexDatabase => Some shared_lock
  | SplitMutexDatabase => Some (lock_guard (index mod mutexes_size)%nat)
  end.

(** The guard of [updateValue(index, value)] in each class. *)
Definition update_guard (V : DBTYPE) (index : nat) : option Guard :=
  match V with
  | Database => None
  | SingleMutexDatabase => Some (lock_guard 0)
  | SharedMutexDatabase => Some unique_lock
  | SplitMutexDatabase => Some (lock_guard (index mod mutexes_size)%nat)
  end.

(** Whether a thread asking for [g] waits while another holds [g']: a
    [std::mutex] has one owner; a [std::shared_mutex] has one exclusive
    owner or any number of shared ones. *)
Definition conflicts (g g' : Guard) : bool :=
  match g, g' with
  | lock_guard k, lock_guard k' => bool_decide (k = k')
  | unique_lock, (unique_lock | shared_lock) => true
  | shared_lock, unique_lock => true
  | _, _ => false
  end.

Definition synchronized (V : DBTYPE) : bool :=
  match V with Database => false | _ => true end.

(** ** std::mt19937 *)

Module MT19937.

Definition n : nat := 624.
Definition m : nat := 397.
Definition UPPER_MASK : Z := 0x80000000.
Definition LOWER_MASK : Z := 0x7fffffff.
Definition MATRIX_A : Z := 0x9908b0df.

Definition u32 (x : Z) : Z := x mod 2 ^ 32.

(** The state words and the position of the next one to temper. *)
Record engine := { mt : list Z; mti : nat }.

Fixpoint seed_words (k : nat) (i prev : Z) : list Z :=
  match k with
  | O => []
  | S k' =>
      let x := u32 (1812433253 * Z.lxor prev (Z.shiftr prev 30) + i) in
      x :: seed_words k' (i + 1) x
  end.

(** [std::mt19937 engine(seed)]: the argument is taken modulo [2^32]. *)
Definition seed (s : Z) : engine :=
  let x0 := u32 s in
  {| mt := x0 :: seed_words (n - 1) 1 x0; mti := n |}.

Definition twist_at (x : list Z) (k : nat) : list Z :=
  let y := Z.lor (Z.land (x !!! k) UPPER_MASK)
                 (Z.land (x !!! ((k + 1) mod n)%nat) LOWER_MASK) in
  let mag := if Z.odd y then MATRIX_A else 0 in
  <[k := Z.lxor (Z.lxor (x !!! ((k + m) mod n)%nat) (Z.shiftr y 1)) mag]> x.

Definition twist (x : list Z) : list Z := foldl twist_at x (seq 0 n).

Definition temper (y : Z) : Z :=
  let y := Z.lxor y (Z.land (Z.shiftr y 11) 0xffffffff) in
  let y := Z.lxor y (Z.land (Z.shiftl y 7) 0x9d2c5680) in
  let y := Z.lxor y (Z.land (Z.shiftl y 15) 0xefc60000) in
  Z.lxor y (Z.shiftr y 18).

(** [engine()]: the next 32-bit output and the advanced engine. *)
Definition next (g : engine) : Z * engine :=
  let g' := if decide (n <= mti g)%nat
            then {| mt := twist (mt g); mti := 0 |} else g in
  (temper (mt g' !!! mti g'), {| mt := mt g'; mti := S (mti g') |}).

Fixpoint discard (k : nat) (g : engine) : engine :=
  match k with
  | O => g
  | S k' => discard k' (next g).2
  end.

End MT19937.

(** ** std::shuffle *)

(** [std::uniform_int_distribution<size_t>(0, b)(g)], the draw inside
    [std::shuffle]: which value of [0..b] it returns for which engine
    outputs is the library's choice; every library returns one in range. *)
Class UniformInt := {
  uniform_int : MT19937.engine -> nat -> nat * MT19937.engine;
  uniform_int_range : forall g b, ((uniform_int g b).1 <= b)%nat
}.

(** [std::iter_swap(a + i, a + j)]. *)
Definition iter_swap (a : list nat) (i j : nat) : list nat :=
  match a !! i, a !! j with
  | Some x, Some y => <[j := x]> (<[i := y]> a)
  | _, _ => a
  end.

Section Shuffle.
Context `{UniformInt}.

(** The loop of [std::shuffle]: position [i] is swapped with a position
    drawn from [0..i], for [i] from 1 to the last one. *)
Fixpoint shuffle_loop (k i : nat) (a : list nat) (g : MT19937.engine)
  : list nat * MT19937.engine :=
  match k with
  | O => (a, g)
  | S k' =>
      let '(j, g') := uniform_int g i in
      shuffle_loop k' (S i) (iter_swap a i j) g'
  end.

Definition shuffle (a : list nat) (g : MT19937.engine)
  : list nat * MT19937.engine :=
  shuffle_loop (length a - 1) 1 a g.

(** [getIndicesInShuffledOrder(int seed)]: [std::iota] from 0, a fresh
    engine from the seed, the shuffle; the engine is dropped on return. *)
Definition getIndicesInShuffledOrder (seed : Z) : list nat :=
  let indices := seq 0 Database.DATABASE_SIZE in
  let engine := MT19937.seed seed in
  (shuffle indices engine).1.

End Shuffle.

(** ** The call of getIndicesInShuffledOrder on the objects of the process *)

(** The objects a call can reach, each at its address: the arrays of
    indices and the engines that exist when the call is made. *)
Record Mem := {
  arrays : gmap nat (list nat);
  engines : gmap nat MT19937.engine
}.

Section ShuffleCall.
Context `{UniformInt}.

(** The loop of [std::shuffle(first, last, g)] on its arguments as the
    call passes them: the array at address [a] and the engine at address
    [g], both by reference. Every draw advances the engine where it
    stands; every swap is done in the array where it stands. *)
Fixpoint shuffle_loop_at (k i : nat) (a g : nat) (m : Mem) : Mem :=
  match k with
  | O => m
  | S k' =>
      match engines m !! g, arrays m !! a with
      | Some e, Some arr =>
          let '(j, e') := uniform_int e i in
          shuffle_loop_at k' (S i) a g
            {| arrays := <[a := iter_swap arr i j]> (arrays m);
               engines := <[g := e']> (engines m) |}
      | _, _ => m
      end
  end.

Definition shuffle_at (a g : nat) (m : Mem) : Mem :=
  match arrays m !! a with
  | Some arr => shuffle_loop_at (length arr - 1) 1 a g m
  | None => m
  end.

(** One call of [getIndicesInShuffledOrder(seed)] made when the objects
    of the process are [m]: the two automatic objects [indices] and
    [engine] get storage no live object has, [std::iota] fills the array,
    the engine is constructed from the seed, [std::shuffle] works on both
    by reference, the array is returned by value and the two objects end
    with the call. *)
Definition getIndicesInShuffledOrder_call (seed : Z) (m : Mem) : list nat * Mem :=
  let a := fresh (dom (arrays m)) in
  let m1 := {| arrays := <[a := seq 0 Database.DATABASE_SIZE]> (arrays m);
               engines := engines m |} in
  let g := fresh (dom (engines m1)) in
  let m2 := {| arrays := arrays m1;
               engines := <[g := MT19937.seed seed]> (engines m1) |} in
  let m3 := shuffle_at a g m2 in
  let result := default [] (arrays m3 !! a) in
  (result, {| arrays := delete a (arrays m3); engines := delete g (engines m3) |}).

End ShuffleCall.

(** One admissible draw: the next engine output reduced modulo [b + 1]. *)
Definition uniform_int_mod (g : MT19937.engine) (b : nat)
  : nat * MT19937.engine :=
  let '(x, g') := MT19937.next g in (Z.to_nat (x mod Z.of_nat (S b)), g').

(** ** The workload routines *)

(** A call on the database object. *)
Inductive Call :=
| CallRead (index : nat)                 (* database.readValue(i) *)
| CallUpdate (index : nat) (value : Z).  (* database.updateValue(i, value) *)

Definition call_index (c : Call) : nat :=
  match c with CallRead i | CallUpdate i _ => i end.

Section Workload.
Context `{UniformInt}.

(** [readAllInRandomOrder(database, seed)]: the calls of its [for_each],
    in order. *)
Definition readAllInRandomOrder (seed : Z) : list Call :=
  let indices := getIndicesInShuffledOrder seed in
  map (fun i => CallRead i) indices.

(** [updateAllInRandomOrder(database, value, seed)]. *)
Definition updateAllInRandomOrder (value : Z) (seed : Z) : list Call :=
  let indices := getIndicesInShuffledOrder seed in
  map (fun i => CallUpdate i value) indices.

(** The two thread bodies of [testDatabase]. Every call of a routine
    evaluates [threads.size()] anew for its seed: [seeds k j] is the value
    thread [k] reads for its [j]-th call. *)
Definition updater (seeds : nat -> nat -> Z) (k : nat) : list Call :=
  updateAllInRandomOrder 25 (seeds k 0%nat)
  ++ updateAllInRandomOrder (-40) (seeds k 1%nat)
  ++ updateAllInRandomOrder 15 (seeds k 2%nat).

Definition reader (seeds : nat -> nat -> Z) (k : nat) : list Call :=
  readAllInRandomOrder (seeds k 0%nat).

Definition NUM_UPDATERS : nat := 100.
Definition NUM_READERS : nat := 1000.

(** The bodies of all threads of one [testDatabase] run, in spawn order. *)
Definition testDatabase_bodies (seeds : nat -> nat -> Z) : list (list Call) :=
  map (updater seeds) (seq 0 NUM_UPDATERS)
  ++ map (reader seeds) (seq NUM_UPDATERS NUM_READERS).

End Workload.

(** One call executed alone, through the methods of [Database]. *)
Definition run_call (c : Call) : M unit :=
  match c with
  | CallRead i => _ <- Database.readValue i ;; ret tt
  | CallUpdate i v => Database.updateValue i v
  end.

(** A sequence of calls executed one after the other. *)
Fixpoint run_calls (cs : list Call) : M unit :=
  match cs with
  | [] => ret tt
  | c :: cs' => run_call c ;; run_calls cs'
  end.

(** The [updateValue] calls among a list of calls. *)
Definition updates_of (cs : list Call) : list Call :=
  filter (fun c => match c with CallUpdate _ _ => true | _ => false end = true) cs.

(** ** Concurrent runs *)

(** Where a thread stands inside its current call. *)
Inductive Phase :=
| Idle              (* between two calls *)
| Entered           (* guard constructed; inside the method of Database *)
| Loaded (x : Z)    (* data_.at(index) has been read *)
| Done.             (* result written or returned; guard still alive *)

Record Thread := { phase : Phase; todo : list Call }.

Record Conc := {
  data_ : Table;               (* the one table all threads share *)
  held : list (nat * Guard);   (* the live guards, each with its thread *)
  threads : list Thread
}.

Definition guard_of (V : DBTYPE) (c : Call) : option Guard :=
  match c with
  | CallRead i => read_guard V i
  | CallUpdate i _ => update_guard V i
  end.

(** A guard can be constructed when no live guard conflicts with it. *)
Definition guard_free (og : option Guard) (hs : list (nat * Guard)) : bool :=
  match og with
  | None => true
  | Some g => forallb (fun e => negb (conflicts g e.2)) hs
  end.

Definition acquire (t : nat) (og : option Guard) (hs : list (nat * Guard))
  : list (nat * Guard) :=
  match og with
  | None => hs
  | Some g => (t, g) :: hs
  end.

Definition release (t : nat) (hs : list (nat * Guard)) : list (nat * Guard) :=
  filter (fun e => e.1 ≠ t) hs.

(** What the call does with the value it loaded: [updateValue] stores the
    sum, [readValue] returns and stores nothing. *)
Definition commit (c : Call) (x : Z) (d : Table) : Table :=
  match c with
  | CallRead _ => d
  | CallUpdate i v => <[i := Int.add64 x v]> d
  end.

Definition set_thread (t : nat) (th : Thread) (s : Conc) : Conc :=
  {| data_ := data_ s; held := held s; threads := <[t := th]> (threads s) |}.

(** The next step of thread [t], when it has one. A thread whose guard is
    not free has none (it waits); neither has one whose index is out of
    range (the exception leaves the thread function and the program is
    terminated, so no join follows). *)
Definition exec (V : DBTYPE) (t : nat) (s : Conc) : option Conc :=
  th ← threads s !! t;
  match todo th with
  | [] => None
  | c :: rest =>
      match phase th with
      | Idle =>
          if guard_free (guard_of V c) (held s) then
            Some {| data_ := data_ s;
                    held := acquire t (guard_of V c) (held s);
                    threads := <[t := {| phase := Entered; todo := c :: rest |}]> (threads s) |}
          else None
      | Entered =>
          x ← data_ s !! call_index c;
          Some (set_thread t {| phase := Loaded x; todo := c :: rest |} s)
      | Loaded x =>
          Some {| data_ := commit c x (data_ s);
                  held := held s;
                  threads := <[t := {| phase := Done; todo := c :: rest |}]> (threads s) |}
      | Done =>
          Some {| data_ := data_ s;
                  held := release t (held s);
                  threads := <[t := {| phase := Idle; todo := rest |}]> (threads s) |}
      end
  end.

Definition step (V : DBTYPE) (s s' : Conc) : Prop :=
  exists t, exec V t s = Some s'.

(** A schedule names the thread that moves at each step. *)
Fixpoint run_schedule (V : DBTYPE) (sched : list nat) (s : Conc) : option Conc :=
  match sched with
  | [] => Some s
  | t :: sched' => s' ← exec V t s; run_schedule V sched' s'
  end.

Definition spawn (body : list Call) : Thread := {| phase := Idle; todo := body |}.

(** The state of [testDatabase] once the object is built. All threads are
    there from the start: a thread spawned later takes its first step
    later, which is one of the schedules. *)
Definition start (bodies : list (list Call)) : Conc :=
  {| data_ := Database.new; held := []; threads := map spawn bodies |}.

Definition finished (th : Thread) : bool :=
  match phase th, todo th with
  | Idle, [] => true
  | _, _ => false
  end.

(** Every thread has returned: all joins succeed. *)
Definition joined (s : Conc) : bool := forallb finished (threads s).

(** The guard a thread holds: the one of its current call, from the moment
    it entered the call until it is back between calls. *)
Definition holding (V : DBTYPE) (th : Thread) : option Guard :=
  match phase th, todo th with
  | Idle, _ => None
  | _, c :: _ => guard_of V c
  | _, [] => None
  end.

Definition sumZ {A} (f : A -> Z) (l : list A) : Z :=
  foldr (fun a acc => f a + acc) 0 l.

(** What a call adds to cell [cell]. *)
Definition delta_on (cell : nat) (c : Call) : Z :=
  match c with
  | CallRead _ => 0
  | CallUpdate i v => if decide (i = cell) then v else 0
  end.

(** What a thread has still to add to cell [cell]: the call it is in
    counts until its store is done. *)
Definition pending (cell : nat) (th : Thread) : Z :=
  match phase th with
  | Done => sumZ (delta_on cell) (tail (todo th))
  | _ => sumZ (delta_on cell) (todo th)
  end.

(** The schedule that runs the thread at position [t] through a body of
    [n] calls, four steps a call. *)
Definition solo (t n : nat) : list nat := replicate (4 * n) t.

(** The schedule that runs the threads one after the other, in spawn
    order. *)
Fixpoint one_by_one (t : nat) (bodies : list (list Call)) : list nat :=
  match bodies with
  | [] => []
  | body :: bodies' => solo t (length body) ++ one_by_one (S t) bodies'
  end.

(** What holds of every state of a run in a locked class. *)
Record CInv (V : DBTYPE) (s : Conc) : Prop := {
  ci_wf : Database.wf (data_ s);
  ci_held : forall t g, (t, g) ∈ held s <->
              exists th, threads s !! t = Some th /\ holding V th = Some g;
  ci_excl : forall t u tht thu g g', t ≠ u ->
              threads s !! t = Some tht -> threads s !! u = Some thu ->
              holding V tht = Some g -> holding V thu = Some g' ->
              conflicts g g' = false;
  ci_loaded : forall t x i v rest,
              threads s !! t = Some {| phase := Loaded x; todo := CallUpdate i v :: rest |} ->
              data_ s !! i = Some x;
  ci_sum : forall cell x, data_ s !! cell = Some x ->
              (x + sumZ (pending cell) (threads s)) mod 2 ^ 64 = 0
}.

(** ** The spawn loops of testDatabase *)

Module Harness.

(** The lambdas capture [threads] by reference and name [threads.size()]
    as the seed argument of each routine call, so a worker reads the size
    of the vector when it makes the call. [emplace_back] first constructs
    the [std::thread] (the worker starts) and then makes the new element
    count. The reads are taken as atomic. *)
Record State := {
  size : nat;                  (* threads.size() *)
  constructing : bool;         (* a thread is constructed, not yet counted *)
  workers : list (nat * nat);  (* spawn index, routine calls still to make *)
  log : list (nat * Z)         (* spawn index and seed of every call made *)
}.

Definition TOTAL : nat := (NUM_UPDATERS + NUM_READERS)%nat.

(** Routine calls of the thread spawned at index [k]: three for an
    updater, one for a reader. *)
Definition calls_of (k : nat) : nat :=
  if decide (k < NUM_UPDATERS)%nat then 3%nat else 1%nat.

Inductive Action :=
| Construct          (* main: the std::thread of emplace_back starts *)
| Publish            (* main: emplace_back makes the element count *)
| CallBy (w : nat).  (* worker w evaluates threads.size() and calls *)

Definition init : State :=
  {| size := 0; constructing := false; workers := []; log := [] |}.

Definition act (a : Action) (s : State) : option State :=
  match a with
  | Construct =>
      if negb (constructing s) && bool_decide (size s < TOTAL)%nat then
        Some {| size := size s; constructing := true;
                workers := workers s ++ [(size s, calls_of (size s))];
                log := log s |}
      else None
  | Publish =>
      if constructing s then
        Some {| size := S (size s); constructing := false;
                workers := workers s; log := log s |}
      else None
  | CallBy w =>
      match workers s !! w with
      | Some (k, S c) =>
          Some {| size := size s; constructing := constructing s;
                  workers := <[w := (k, c)]> (workers s);
                  log := (k, Z.of_nat (size s)) :: log s |}
      | _ => None
      end
  end.

Fixpoint run (acts : list Action) (s : State) : option State :=
  match acts with
  | [] => Some s
  | a :: acts' => s' ← act a s; run acts' s'
  end.

Definition reachable (s : State) : Prop :=
  exists acts, run acts init = Some s.

(** What holds of every state of the spawn loops. *)
Record Inv (s : State) : Prop := {
  inv_size : (size s <= TOTAL)%nat;
  inv_room : constructing s = true -> (size s < TOTAL)%nat;
  inv_workers : forall w k c, workers s !! w = Some (k, c) -> (k <= size s)%nat;
  inv_log : forall k seed, (k, seed) ∈ log s ->
              Z.of_nat k <= seed <= Z.of_nat (size s)
}.

(** Thread 0 is constructed and counted, then makes its first call: its
    spawn index is 0 and the seed it passes is 1. *)
Definition late_call : list Action := [Construct; Publish; CallBy 0].

End Harness.

(** ** The report on std::cout *)

(** The characters written so far. *)
Definition ostream := string.

Definition nl : string := String "010"%char EmptyString.

(** [os << s] for a string literal, a [long] or [int64_t], a database. *)
Definition put_string (os : ostream) (s : string) : ostream := os +:+ s.
Definition put_int (os : ostream) (x : Z) : ostream := os +:+ pretty x.
Definition put_database (os : ostream) (db : Table) : ostream :=
  foldl (fun os i => put_string (put_int os i) " ") os db.
Definition endl (os : ostream) : ostream := os +:+ nl.

(** The output statement that ends [testDatabase<DBTYPE>]: [elapsed] is the
    count of milliseconds, [db] the table after the joins. *)
Definition testDatabase_report (V : DBTYPE) (elapsed : Z) (db : Table)
    (os : ostream) : ostream :=
  let os := put_string os "Results for " in
  let os := put_string os (DATABASE_TYPE V) in
  let os := put_string os (":" +:+ nl) in
  let os := put_string os "  Elapsed Time:      " in
  let os := put_int os elapsed in
  let os := put_string os ("ms" +:+ nl) in
  let os := put_string os "  Database Contents: " in
  let os := put_database os db in
  let os := put_string os nl in
  let os := put_string os "  All Zero:          " in
  let os := put_string os
              (match Database.isAllZero db with
               | (Ok true, _) => "Pass"
               | _ => "FAILED!!!"
               end) in
  endl os.

(** [main]: the four runs in order; run [V] took [(r V).1] milliseconds and
    left the table [(r V).2]. *)
Definition main (r : DBTYPE -> Z * Table) (os : ostream) : ostream :=
  let os := testDatabase_report Database (r Database).1 (r Database).2 os in
  let os := testDatabase_report SingleMutexDatabase
              (r SingleMutexDatabase).1 (r SingleMutexDatabase).2 os in
  let os := testDatabase_report SharedMutexDatabase
              (r SharedMutexDatabase).1 (r SharedMutexDatabase).2 os in
  testDatabase_report SplitMutexDatabase
    (r SplitMutexDatabase).1 (r SplitMutexDatabase).2 os.

(** The lines of a text: the pieces between line feeds. *)
Fixpoint lines (s : string) : list string :=
  match s with
  | EmptyString => [EmptyString]
  | String c s' =>
      if Ascii.eqb c "010"%char then EmptyString :: lines s'
      else match lines s' with
           | l :: ls => String c l :: ls
           | [] => [String c EmptyString]
           end
  end.

Fixpoint no_nl (s : string) : bool :=
  match s with
  | EmptyString => true
  | String c s' => negb (Ascii.eqb c "010"%char) && no_nl s'
  end.

(** The cells as [operator<<] of [Database] writes them. *)
Definition cells_text (db : Table) : string :=
  foldr (fun i s => pretty i +:+ " " +:+ s) EmptyString db.

Definition verdict_text (db : Table) : string :=
  match Database.isAllZero db with
  | (Ok true, _) => "Pass"
  | _ => "FAILED!!!"
  end.

(** The four lines of one block. *)
Definition block_lines (V : DBTYPE) (elapsed : Z) (db : Table) : list string :=
  [ "Results for " +:+ DATABASE_TYPE V +:+ ":";
    "  Elapsed Time:      " +:+ pretty elapsed +:+ "ms";
    "  Database Contents: " +:+ cells_text db;
    "  All Zero:          " +:+ verdict_text db ].

Definition block_text (V : DBTYPE) (elapsed : Z) (db : Table) : string :=
  foldr (fun l s => l +:+ nl +:+ s) EmptyString (block_lines V elapsed db).

(** The elapsed-time line as the specification words it: the integer, a
    space, then [ms]. *)
Definition spec_elapsed_line (n : Z) : string :=
  "  Elapsed Time:      " +:+ pretty n +:+ " ms".

(** ** Further definitions *)

(** The table a sequence of calls leaves: each cell holds, as [int64_t],
    its old value plus the values of the updates at that cell. *)
Definition table_after (cs : list Call) (t : Table) : Table :=
  imap (fun cell x => Int.wrap64 (x + sumZ (delta_on cell) cs)) t.

(** Whether a thread is inside a call: its guard is constructed and not
    yet destroyed. *)
Definition inside (th : Thread) : bool :=
  match phase th with Idle => false | _ => true end.

(** What holds of the guards in every state of a run, in every class. *)
Record LInv (V : DBTYPE) (s : Conc) : Prop := {
  li_phase : forall t th, threads s !! t = Some th ->
               inside th = true -> todo th ≠ [];
  li_held : forall t g, (t, g) ∈ held s <->
              exists th, threads s !! t = Some th /\ holding V th = Some g;
  li_excl : forall t u tht thu g g', t ≠ u ->
              threads s !! t = Some tht -> threads s !! u = Some thu ->
              holding V tht = Some g -> holding V thu = Some g' ->
              conflicts g g' = false
}.

(** The indices a run can still use are in range. *)
Record RInv (s : Conc) : Prop := {
  ri_len : length (data_ s) = Database.DATABASE_SIZE;
  ri_range : forall t th c, threads s !! t = Some th -> c ∈ todo th ->
               (call_index c < Database.DATABASE_SIZE)%nat
}.

(** The steps a thread has still to take: four a call, less those taken
    inside the current call. *)
Definition weight (th : Thread) : Z :=
  4 * Z.of_nat (length (todo th))
  - match phase th with Idle => 0 | Entered => 1 | Loaded _ => 2 | Done => 3 end.

Definition steps_left (s : Conc) : Z := sumZ weight (threads s).

(** Two threads about to update one cell: both load before either stores. *)
Definition race : list nat := [0; 0; 1; 1; 0; 0; 1; 1]%nat.

Fixpoint no_space (s : string) : bool :=
  match s with
  | EmptyString => true
  | String c s' => negb (Ascii.eqb c " "%char) && no_space s'
  end.

(** The log has the latest call first: seeds do not grow towards its end;
    and the Harness.workers stand in spawn order, none with more calls to make
    than its body has. *)
Record Inv2 (s : Harness.State) : Prop := {
  inv_mono : forall i j e e', Harness.log s !! i = Some e -> Harness.log s !! j = Some e' ->
               (i <= j)%nat -> e'.2 <= e.2;
  inv_count : length (Harness.workers s) = (Harness.size s + if Harness.constructing s then 1 else 0)%nat;
  inv_order : forall w k c, Harness.workers s !! w = Some (k, c) ->
                k = w /\ (c <= Harness.calls_of w)%nat
}.

(** ** A concrete draw *)

Lemma uniform_int_mod_range (g : MT19937.engine) (b : nat) :
  ((uniform_int_mod g b).1 <= b)%nat.
Proof.
  unfold uniform_int_mod. destruct (MT19937.next g) as [x g']. simpl.
  pose proof (Z.mod_pos_bound x (Z.of_nat (S b))). lia.
Qed.

(** The draw used where a concrete library is needed. *)
Definition mod_draw : UniformInt :=
  {| uniform_int := uniform_int_mod; uniform_int_range := uniform_int_mod_range |}.

(** * Properties *)

(** ** Machine integers *)

Section IntFacts.
Import Int.

Lemma wrap64_in_range x : in_int64 (wrap64 x).
Proof.
  unfold in_int64, wrap64, wrap.
  pose proof (Z.mod_pos_bound (x + 2 ^ (64 - 1)) (2 ^ 64)) as Hb.
  change (2 ^ (64 - 1)) with (2 ^ 63) in *. lia.
Qed.

Lemma wrap64_id x : in_int64 x -> wrap64 x = x.
Proof.
  unfold in_int64, wrap64, wrap. intros Hx.
  change (2 ^ (64 - 1)) with (2 ^ 63).
  rewrite Z.mod_small; lia.
Qed.

Lemma wrap64_mod x : wrap64 x mod 2 ^ 64 = x mod 2 ^ 64.
Proof.
  unfold wrap64, wrap. change (2 ^ (64 - 1)) with (2 ^ 63).
  rewrite Zminus_mod, Zmod_mod, <- Zminus_mod. f_equal. lia.
Qed.

Lemma wrap64_eq_mod x y : x mod 2 ^ 64 = y mod 2 ^ 64 -> wrap64 x = wrap64 y.
Proof.
  intros Hxy. unfold wrap64, wrap. f_equal.
  rewrite (Zplus_mod x), (Zplus_mod y), Hxy. done.
Qed.

Lemma add64_in_range a b : in_int64 (add64 a b).
Proof. apply wrap64_in_range. Qed.

Lemma add64_exact a b : in_int64 (a + b) -> add64 a b = a + b.
Proof. apply wrap64_id. Qed.

Lemma add64_mod a b : add64 a b mod 2 ^ 64 = (a + b) mod 2 ^ 64.
Proof. apply wrap64_mod. Qed.

(** Adding [d] and then its negation gives back a representable value. *)
Lemma add64_neg64 x d : in_int64 x -> add64 (add64 x d) (neg64 d) = x.
Proof.
  intros Hx. rewrite <- (wrap64_id x Hx) at 2.
  unfold add64, neg64. apply wrap64_eq_mod.
  rewrite Zplus_mod, !wrap64_mod, <- Zplus_mod. f_equal. lia.
Qed.

Lemma neg64_exact d : in_int64 d -> d ≠ INT64_MIN -> neg64 d = - d.
Proof.
  unfold in_int64, INT64_MIN, neg64. intros Hd Hmin.
  apply wrap64_id. unfold in_int64. lia.
Qed.

Lemma to_int_exact x : in_int32 x -> to_int x = x.
Proof.
  unfold in_int32, to_int, wrap32, wrap. intros Hx.
  change (2 ^ (32 - 1)) with (2 ^ 31).
  rewrite Z.mod_small; lia.
Qed.

Lemma to_int_in_range x : in_int32 (to_int x).
Proof.
  unfold in_int32, to_int, wrap32, wrap.
  pose proof (Z.mod_pos_bound (x + 2 ^ (32 - 1)) (2 ^ 32)) as Hb.
  change (2 ^ (32 - 1)) with (2 ^ 31) in *. lia.
Qed.

End IntFacts.

(** ** The methods of Database *)

Section DatabaseFacts.
Import Database.

Lemma wf_new : wf new.
Proof.
  split; [reflexivity|].
  apply Forall_replicate. unfold Int.in_int64. lia.
Qed.

Lemma wf_lookup (t : Table) (i : nat) : wf t -> (i < DATABASE_SIZE)%nat ->
  exists x, t !! i = Some x /\ Int.in_int64 x.
Proof.
  intros [Hlen Hall] Hi.
  destruct (lookup_lt_is_Some_2 t i) as [x Hx]; [lia|].
  exists x. split; [done|]. by eapply Forall_lookup_1.
Qed.

Lemma wf_lookup_None (t : Table) (i : nat) : length t = DATABASE_SIZE ->
  ¬ (i < DATABASE_SIZE)%nat -> t !! i = None.
Proof. intros Hlen Hi. apply lookup_ge_None_2. lia. Qed.

Lemma readValue_Some (t : Table) (i : nat) (x : Z) :
  t !! i = Some x -> readValue i t = (Ok (Int.to_int x), t).
Proof. intros Hx. unfold readValue, bind, sleep_for, ret, at_get. by rewrite Hx. Qed.

Lemma readValue_None (t : Table) (i : nat) :
  t !! i = None -> readValue i t = (Throw OutOfRange, t).
Proof. intros Hx. unfold readValue, bind, sleep_for, ret, at_get. by rewrite Hx. Qed.

Lemma updateValue_Some (t : Table) (i : nat) (v x : Z) :
  t !! i = Some x ->
  updateValue i v t = (Ok tt, <[i := Int.add64 x v]> t).
Proof.
  intros Hx. unfold updateValue, bind, sleep_for, ret, at_get, at_set.
  rewrite Hx. cbn. by rewrite Hx.
Qed.

Lemma updateValue_None (t : Table) (i : nat) (v : Z) :
  t !! i = None -> updateValue i v t = (Throw OutOfRange, t).
Proof.
  intros Hx. unfold updateValue, bind, sleep_for, ret, at_get, at_set.
  by rewrite Hx.
Qed.

Lemma wf_insert (t : Table) (i : nat) (x : Z) : wf t -> Int.in_int64 x -> wf (<[i := x]> t).
Proof.
  intros [Hlen Hall] Hx. split; [by rewrite length_insert|].
  by apply Forall_insert.
Qed.

Lemma isAllZero_true (t : Table) :
  (isAllZero t).1 = Ok true <-> Forall (fun x => x = 0) t.
Proof.
  unfold isAllZero. simpl. split.
  - intros [= Hb]. apply Forall_forall. intros x Hx.
    rewrite forallb_forall in Hb. apply Z.eqb_eq, Hb. by apply list_elem_of_In.
  - intros Hall. f_equal. apply forallb_forall. intros x Hx.
    apply Z.eqb_eq. rewrite Forall_forall in Hall. apply Hall. by apply list_elem_of_In.
Qed.

End DatabaseFacts.

(** C3. An index outside [0, 10) makes [readValue] and [updateValue] fail
    with the out-of-range exception of [std::array::at], and the table the
    failed call leaves behind is the table it found. *)
Theorem out_of_bounds_fails_without_change (t : Table) (i : nat) (delta : Z) :
  length t = Database.DATABASE_SIZE ->
  ¬ (i < Database.DATABASE_SIZE)%nat ->
  Database.readValue i t = (Throw OutOfRange, t)
  /\ Database.updateValue i delta t = (Throw OutOfRange, t).
Proof.
  intros Hlen Hi. pose proof (wf_lookup_None t i Hlen Hi) as Hn.
  split; [by apply readValue_None | by apply updateValue_None].
Qed.

Lemma out_of_bounds_fails_without_change_witness :
  Database.readValue 10 Database.new = (Throw OutOfRange, Database.new)
  /\ Database.updateValue 10 25 Database.new = (Throw OutOfRange, Database.new).
Proof.
  apply (out_of_bounds_fails_without_change Database.new 10 25).
  - reflexivity.
  - unfold Database.DATABASE_SIZE. lia.
Defined.

(** C4 (the code differs). [readValue] returns [int]: a cell that does not
    fit 32 bits comes back reduced. After [updateValue(0, 2^32)] on a fresh
    table, cell 0 holds [2^32] and [readValue(0)] returns 0. *)
Theorem readValue_narrows_to_int :
  let t := <[0%nat := 2 ^ 32]> Database.new in
  Database.updateValue 0 (2 ^ 32) Database.new = (Ok tt, t)
  /\ Database.wf t
  /\ t !! 0%nat = Some (2 ^ 32)
  /\ Database.readValue 0 t = (Ok 0, t).
Proof.
  cbv zeta. split; [reflexivity|]. split; [|split; reflexivity].
  apply wf_insert; [apply wf_new|]. unfold Int.in_int64. lia.
Qed.

(** What [readValue] returns for an index in range: the cell converted to
    [int], which is the cell itself exactly when it fits 32 bits. *)
Lemma readValue_in_range (t : Table) (i : nat) :
  Database.wf t -> (i < Database.DATABASE_SIZE)%nat ->
  exists x, t !! i = Some x
    /\ Database.readValue i t = (Ok (Int.to_int x), t)
    /\ (Int.to_int x = x <-> Int.in_int32 x).
Proof.
  intros Hwf Hi. destruct (wf_lookup t i Hwf Hi) as (x & Hx & _).
  exists x. split; [done|]. split; [by apply readValue_Some|].
  split; [intros <-; apply to_int_in_range | apply to_int_exact].
Qed.

(** C9. [readValue] and [isAllZero] leave the table as it is; [updateValue]
    at an index in range replaces cell [i] by the [int64_t] sum of its old
    value and [delta] (the plain sum whenever that is representable) and
    leaves every other cell as it is. *)
Theorem frame_of_the_methods (t : Table) (i : nat) (delta : Z) :
  Database.wf t ->
  (forall k, (Database.readValue k t).2 = t)
  /\ (Database.isAllZero t).2 = t
  /\ ((i < Database.DATABASE_SIZE)%nat ->
      exists x t',
        t !! i = Some x
        /\ Database.updateValue i delta t = (Ok tt, t')
        /\ t' !! i = Some (Int.add64 x delta)
        /\ (Int.in_int64 (x + delta) -> t' !! i = Some (x + delta))
        /\ (forall j, j ≠ i -> t' !! j = t !! j)
        /\ Database.wf t').
Proof.
  intros Hwf. split; [|split].
  - intros k. destruct (t !! k) as [x|] eqn:Hk.
    + by rewrite (readValue_Some _ _ _ Hk).
    + by rewrite (readValue_None _ _ Hk).
  - reflexivity.
  - intros Hi. destruct (wf_lookup t i Hwf Hi) as (x & Hx & Hrange).
    exists x, (<[i := Int.add64 x delta]> t).
    assert (i < length t)%nat as Hlt by (by eapply lookup_lt_Some).
    repeat split.
    + done.
    + by apply updateValue_Some.
    + by apply list_lookup_insert_eq.
    + intros Hsum. rewrite list_lookup_insert_eq by done.
      by rewrite add64_exact.
    + intros j Hj. by apply list_lookup_insert_ne.
    + by rewrite length_insert; apply Hwf.
    + apply Forall_insert; [apply Hwf | apply add64_in_range].
Qed.

Lemma frame_of_the_methods_witness :
  (forall k, (Database.readValue k Database.new).2 = Database.new)
  /\ (Database.isAllZero Database.new).2 = Database.new
  /\ exists x t',
       Database.new !! 3%nat = Some x
       /\ Database.updateValue 3 25 Database.new = (Ok tt, t')
       /\ t' !! 3%nat = Some (Int.add64 x 25)
       /\ (Int.in_int64 (x + 25) -> t' !! 3%nat = Some (x + 25))
       /\ (forall j, j ≠ 3%nat -> t' !! j = Database.new !! j)
       /\ Database.wf t'.
Proof.
  destruct (frame_of_the_methods Database.new 3 25 wf_new) as (Hr & Hz & Hu).
  split; [exact Hr|]. split; [exact Hz|].
  apply Hu. unfold Database.DATABASE_SIZE. lia.
Defined.

(** C10. At an index in range, [updateValue(i, d)] followed by
    [updateValue(i, -d)] gives back the table it started from. *)
Theorem update_then_opposite_restores (t : Table) (i : nat) (d : Z) :
  Database.wf t ->
  (i < Database.DATABASE_SIZE)%nat ->
  Int.in_int64 d ->
  exists t1,
    Database.updateValue i d t = (Ok tt, t1)
    /\ Database.updateValue i (Int.neg64 d) t1 = (Ok tt, t).
Proof.
  intros Hwf Hi Hd. destruct (wf_lookup t i Hwf Hi) as (x & Hx & Hrange).
  assert (i < length t)%nat as Hlt by (by eapply lookup_lt_Some).
  exists (<[i := Int.add64 x d]> t). split; [by apply updateValue_Some|].
  rewrite (updateValue_Some _ i _ (Int.add64 x d))
    by (by apply list_lookup_insert_eq).
  rewrite list_insert_insert_eq, add64_neg64 by done.
  by rewrite list_insert_id.
Qed.

Lemma update_then_opposite_restores_witness :
  exists t1,
    Database.updateValue 7 Int.INT64_MIN (<[7%nat := -1]> Database.new) = (Ok tt, t1)
    /\ Database.updateValue 7 (Int.neg64 Int.INT64_MIN) t1
       = (Ok tt, <[7%nat := -1]> Database.new).
Proof.
  apply (update_then_opposite_restores (<[7%nat := -1]> Database.new) 7 Int.INT64_MIN).
  - apply wf_insert; [apply wf_new|]. unfold Int.in_int64. lia.
  - unfold Database.DATABASE_SIZE. lia.
  - unfold Int.in_int64, Int.INT64_MIN. lia.
Defined.

(** ** The shuffled access order *)

(** The engine is the standard one: first output of the default seed, and
    the first output for seed 1. *)
Example mt19937_default_first : (MT19937.next (MT19937.seed 5489)).1 = 3499211612.
Proof. vm_compute. reflexivity. Qed.

Example mt19937_seed1_first : (MT19937.next (MT19937.seed 1)).1 = 1791095845.
Proof. vm_compute. reflexivity. Qed.

(** The check value of the C++ standard: the 10000th output of a default
    constructed [std::mt19937]. *)
Example mt19937_10000th :
  (MT19937.next (MT19937.discard (Z.to_nat 9999) (MT19937.seed 5489))).1 = 4123659995.
Proof. vm_compute. reflexivity. Qed.

Lemma mt19937_seed_u32 (s s' : Z) :
  MT19937.u32 s = MT19937.u32 s' -> MT19937.seed s = MT19937.seed s'.
Proof. unfold MT19937.seed. by intros ->. Qed.

Lemma iter_swap_perm (a : list nat) (i j : nat) : iter_swap a i j ≡ₚ a.
Proof.
  unfold iter_swap.
  destruct (a !! i) as [x|] eqn:Hi; [|done].
  destruct (a !! j) as [y|] eqn:Hj; [|done].
  assert (i < length a)%nat as Hli by (by eapply lookup_lt_Some).
  assert (j < length a)%nat as Hlj by (by eapply lookup_lt_Some).
  apply Permutation_inj. split; [by rewrite !length_insert|].
  exists (fun k => if decide (k = j) then i else if decide (k = i) then j else k).
  split.
  - intros k1 k2. repeat case_decide; congruence.
  - intros k. destruct (decide (k = j)) as [->|Hkj].
    + rewrite list_lookup_insert_eq by (by rewrite length_insert). done.
    + rewrite list_lookup_insert_ne by done.
      destruct (decide (k = i)) as [->|Hki].
      * by rewrite list_lookup_insert_eq.
      * by rewrite list_lookup_insert_ne.
Qed.

Section ShuffleFacts.
Context `{UniformInt}.

Lemma shuffle_loop_perm (k i : nat) (a : list nat) (g : MT19937.engine) :
  (shuffle_loop k i a g).1 ≡ₚ a.
Proof.
  revert i a g. induction k as [|k IH]; intros i a g; simpl; [done|].
  destruct (uniform_int g i) as [j g']. rewrite IH. apply iter_swap_perm.
Qed.

Lemma shuffle_perm (a : list nat) (g : MT19937.engine) : (shuffle a g).1 ≡ₚ a.
Proof. apply shuffle_loop_perm. Qed.

Lemma getIndices_perm (seed : Z) :
  getIndicesInShuffledOrder seed ≡ₚ seq 0 Database.DATABASE_SIZE.
Proof. apply shuffle_perm. Qed.

(** Every swap of the loop is between two positions of the array. *)
Lemma shuffle_loop_in_bounds (k i : nat) (a : list nat) (g : MT19937.engine) :
  (i + k <= length a)%nat ->
  forall j g', uniform_int g i = (j, g') ->
  (0 < k)%nat -> is_Some (a !! i) /\ is_Some (a !! j).
Proof.
  intros Hlen j g' Hdraw Hk.
  pose proof (uniform_int_range g i) as Hr. rewrite Hdraw in Hr. simpl in Hr.
  split; apply lookup_lt_is_Some_2; lia.
Qed.

Lemma getIndices_depends_on_u32 (s s' : Z) :
  MT19937.u32 s = MT19937.u32 s' ->
  getIndicesInShuffledOrder s = getIndicesInShuffledOrder s'.
Proof.
  intros Hs. unfold getIndicesInShuffledOrder.
  by rewrite (mt19937_seed_u32 s s' Hs).
Qed.

(** C2. For every seed the result has exactly 10 entries and is a
    permutation of 0..9: no entry is repeated and the entries are exactly
    the indices below 10. *)
Theorem shuffled_order_is_permutation (seed : Z) :
  length (getIndicesInShuffledOrder seed) = 10%nat
  /\ getIndicesInShuffledOrder seed ≡ₚ [0; 1; 2; 3; 4; 5; 6; 7; 8; 9]%nat
  /\ NoDup (getIndicesInShuffledOrder seed)
  /\ (forall i, i ∈ getIndicesInShuffledOrder seed <-> (i < 10)%nat).
Proof.
  pose proof (getIndices_perm seed) as Hp.
  split; [|split; [|split]].
  - by rewrite Hp.
  - exact Hp.
  - rewrite Hp. apply NoDup_seq.
  - intros i. rewrite Hp, elem_of_seq. unfold Database.DATABASE_SIZE. lia.
Qed.

End ShuffleFacts.

(** The order for seed 42 under the modulo draw. *)
Example shuffled_order_42 :
  @getIndicesInShuffledOrder mod_draw 42 = [9; 0; 2; 6; 7; 8; 1; 4; 3; 5]%nat.
Proof. vm_compute. reflexivity. Qed.

(** An engine that went on from where the first call left it would give
    another order: the fresh engine of each call is what makes the second
    call repeat the first. *)
Example shuffle_with_used_engine_differs :
  let indices := seq 0 Database.DATABASE_SIZE in
  let '(first, g) := @shuffle mod_draw indices (MT19937.seed 42) in
  (@shuffle mod_draw indices g).1 ≠ first.
Proof. vm_compute. discriminate. Qed.

Section ShuffleCallFacts.
Context `{UniformInt}.

(** The loop on the objects in place does to the array and the engine what
    the loop on values computes, and touches no other object. *)
Lemma shuffle_loop_at_spec (k i a g : nat) (m : Mem) (arr : list nat)
    (e : MT19937.engine) :
  arrays m !! a = Some arr -> engines m !! g = Some e ->
  shuffle_loop_at k i a g m
  = {| arrays := <[a := (shuffle_loop k i arr e).1]> (arrays m);
       engines := <[g := (shuffle_loop k i arr e).2]> (engines m) |}.
Proof.
  revert i m arr e. induction k as [|k IH]; intros i m arr e Ha Hg; cbn [shuffle_loop_at shuffle_loop].
  - cbn [fst snd]. rewrite !insert_id by done. by destruct m.
  - rewrite Ha, Hg. destruct (uniform_int e i) as [j e'].
    rewrite (IH _ _ (iter_swap arr i j) e'); cbn [arrays engines].
    + by rewrite !insert_insert_eq.
    + apply lookup_insert_eq.
    + apply lookup_insert_eq.
Qed.

Lemma getIndices_call_spec (seed : Z) (m : Mem) :
  getIndicesInShuffledOrder_call seed m = (getIndicesInShuffledOrder seed, m).
Proof.
  unfold getIndicesInShuffledOrder_call, shuffle_at. cbn [arrays engines].
  set (a := fresh (dom (arrays m))). set (g := fresh (dom (engines m))).
  assert (arrays m !! a = None) as Ha by (apply not_elem_of_dom, is_fresh).
  assert (engines m !! g = None) as Hg by (apply not_elem_of_dom, is_fresh).
  rewrite lookup_insert_eq.
  rewrite (shuffle_loop_at_spec _ _ a g _ (seq 0 Database.DATABASE_SIZE) (MT19937.seed seed));
    cbn [arrays engines]; [|apply lookup_insert_eq..].
  rewrite lookup_insert_eq, !insert_insert_eq, !delete_insert_id by done.
  cbn [default]. by destruct m.
Qed.

(** C7. A call reads and leaves nothing of what exists when it is made:
    made with the same seed in any two states of the process it returns
    the same order, and it leaves every object of the process as it found
    it; so the second of two successive calls with seed 42 returns what
    the first returned. *)
Theorem shuffled_order_call_deterministic (seed : Z) (m m' : Mem) :
  (getIndicesInShuffledOrder_call seed m).1
  = (getIndicesInShuffledOrder_call seed m').1
  /\ (getIndicesInShuffledOrder_call seed m).2 = m
  /\ (let '(first, m1) := getIndicesInShuffledOrder_call 42 m in
      let '(second, m2) := getIndicesInShuffledOrder_call 42 m1 in
      first = second /\ m2 = m).
Proof.
  rewrite !getIndices_call_spec. cbn [fst snd].
  split; [done|]. split; [done|]. rewrite ?getIndices_call_spec. done.
Qed.

End ShuffleCallFacts.

(** A call made while an array and an engine of the process are alive:
    the order is the one of the seed, and both objects are as before. *)
Example shuffled_order_call_42 :
  let m := {| arrays := {[ 0%nat := [3; 1; 2]%nat ]};
              engines := {[ 0%nat := MT19937.seed 7 ]} |} in
  @getIndicesInShuffledOrder_call mod_draw 42 m
  = ([9; 0; 2; 6; 7; 8; 1; 4; 3; 5]%nat, m).
Proof. cbv zeta. apply (@getIndices_call_spec mod_draw). Qed.

(** The same loop on an engine that stays alive from one shuffle to the
    next gives another order the second time: a call repeats itself
    because its engine is made anew from the seed and ends with it. *)
Example shuffle_at_live_engine_differs :
  let iota := seq 0 Database.DATABASE_SIZE in
  let m0 := {| arrays := {[ 0%nat := iota ]};
               engines := {[ 0%nat := MT19937.seed 42 ]} |} in
  let m1 := @shuffle_at mod_draw 0 0 m0 in
  let m2 := @shuffle_at mod_draw 0 0
              {| arrays := <[ 0%nat := iota ]> (arrays m1); engines := engines m1 |} in
  arrays m1 !! 0%nat = Some [9; 0; 2; 6; 7; 8; 1; 4; 3; 5]%nat
  /\ arrays m2 !! 0%nat ≠ arrays m1 !! 0%nat.
Proof. vm_compute. split; [reflexivity|discriminate]. Qed.

(** ** The locks of SplitMutexDatabase *)

(** The first step of a call: the thread at position [length pre], idle
    and about to make call [c], constructs the guard of [c] when that guard
    is free and waits otherwise. *)
Lemma exec_idle (V : DBTYPE) (d : Table) (hs : list (nat * Guard))
    (pre post : list Thread) (c : Call) (rest : list Call) :
  exec V (length pre)
    {| data_ := d; held := hs; threads := pre ++ spawn (c :: rest) :: post |}
  = if guard_free (guard_of V c) hs then
      Some {| data_ := d;
              held := acquire (length pre) (guard_of V c) hs;
              threads := pre ++ {| phase := Entered; todo := c :: rest |} :: post |}
    else None.
Proof.
  unfold exec. cbn [threads held data_].
  rewrite list_lookup_middle by done. cbn.
  destruct (guard_free (guard_of V c) hs); [|done].
  do 2 f_equal. replace (length pre) with (length pre + 0)%nat at 1 by lia.
  by rewrite insert_app_r.
Qed.

(** C8. [SplitMutexDatabase] has 5 mutexes; [readValue] and [updateValue]
    at index [i] construct their guard on mutex [i mod 5], one of the 5;
    the guards of two calls exclude each other exactly when their indices
    are congruent modulo 5; and a thread entering a call at index [i]
    proceeds, taking mutex [i mod 5], exactly when no live guard is on that
    mutex. *)
Theorem split_mutex_shards (i : nat) (c c' : Call) :
  mutexes_size = 5%nat
  /\ read_guard SplitMutexDatabase i = Some (lock_guard (i mod 5))
  /\ update_guard SplitMutexDatabase i = Some (lock_guard (i mod 5))
  /\ (i mod 5 < mutexes_size)%nat
  /\ guard_of SplitMutexDatabase c = Some (lock_guard (call_index c mod 5))
  /\ (conflicts (lock_guard (call_index c mod 5)) (lock_guard (call_index c' mod 5)) = true
      <-> (call_index c mod 5 = call_index c' mod 5)%nat)
  /\ (forall d hs pre post rest,
        exec SplitMutexDatabase (length pre)
          {| data_ := d; held := hs; threads := pre ++ spawn (c :: rest) :: post |}
        = if forallb (fun e => negb (bool_decide (e.2 = lock_guard (call_index c mod 5)))) hs
          then Some {| data_ := d;
                       held := (length pre, lock_guard (call_index c mod 5)) :: hs;
                       threads := pre ++ {| phase := Entered; todo := c :: rest |} :: post |}
          else None).
Proof.
  assert (guard_of SplitMutexDatabase c = Some (lock_guard (call_index c mod 5))) as Hg
    by (by destruct c).
  split; [reflexivity|]. split; [reflexivity|]. split; [reflexivity|].
  split; [apply Nat.mod_upper_bound; discriminate|].
  split; [exact Hg|]. split; [apply bool_decide_eq_true|].
  intros d hs pre post rest. rewrite exec_idle, Hg. cbn [guard_free acquire].
  replace (forallb (fun e => negb (conflicts (lock_guard (call_index c mod 5)) e.2)) hs)
    with (forallb (fun e : nat * Guard =>
            negb (bool_decide (e.2 = lock_guard (call_index c mod 5)))) hs); [done|].
  induction hs as [|[u g] hs IH]; [done|]. cbn [forallb]. rewrite IH. f_equal.
  cbn [snd]. destruct g as [k| |]; cbn [conflicts].
  - f_equal. apply bool_decide_ext. split; [by intros [= ->] | by intros ->].
  - done.
  - done.
Qed.

(** ** The seed of a routine call *)

Module HarnessFacts.
Import Harness.

Lemma Inv_init : Inv init.
Proof.
  split; cbn.
  - lia.
  - discriminate.
  - intros w k c Hw. by rewrite lookup_nil in Hw.
  - intros k seed Hin. by apply not_elem_of_nil in Hin.
Qed.

Lemma Inv_act (a : Action) (s s' : State) : Inv s -> act a s = Some s' -> Inv s'.
Proof.
  intros [Hsize Hroom Hw Hlog] Hact. destruct a as [| |w]; cbn in Hact.
  - destruct (constructing s) eqn:Hc; cbn in Hact; [done|].
    case_bool_decide; [|done]. injection Hact as <-. split; cbn [size constructing workers log].
    + done.
    + done.
    + intros w k c Hl. apply lookup_app_Some in Hl as [Hl|[_ Hl]].
      * by eapply Hw.
      * apply list_lookup_singleton_Some in Hl as [_ [= <- _]]. done.
    + done.
  - destruct (constructing s) eqn:Hc; [|done]. injection Hact as <-.
    specialize (Hroom eq_refl). split; cbn [size constructing workers log].
    + lia.
    + done.
    + intros w k c Hl. specialize (Hw _ _ _ Hl). lia.
    + intros k seed Hin. specialize (Hlog _ _ Hin). lia.
  - destruct (workers s !! w) as [[k [|c]]|] eqn:Hl; try done.
    injection Hact as <-. split; cbn [size constructing workers log].
    + done.
    + done.
    + intros w' k' c' Hl'. destruct (decide (w = w')) as [<-|Hne].
      * rewrite list_lookup_insert_eq in Hl' by (by eapply lookup_lt_Some).
        injection Hl' as <- <-. by eapply Hw.
      * rewrite list_lookup_insert_ne in Hl' by done. by eapply Hw.
    + intros k' seed Hin. apply elem_of_cons in Hin as [[= -> ->]|Hin].
      * specialize (Hw _ _ _ Hl). lia.
      * by apply Hlog.
Qed.

Lemma Inv_run (acts : list Action) (s s' : State) :
  Inv s -> run acts s = Some s' -> Inv s'.
Proof.
  revert s. induction acts as [|a acts IH]; intros s Hinv Hrun; cbn in Hrun.
  - by injection Hrun as <-.
  - destruct (act a s) as [s1|] eqn:Hact; [|done]. cbn in Hrun.
    eapply IH; [|done]. by eapply Inv_act.
Qed.

Lemma Inv_reachable (s : State) : reachable s -> Inv s.
Proof. intros [acts Hrun]. eapply Inv_run; [apply Inv_init | done]. Qed.


(** The same thread calling before it is counted passes its spawn index. *)
Lemma early_call_run :
  run [Construct; CallBy 0] init
  = Some {| size := 0; constructing := true; workers := [(0, 2)]%nat;
            log := [(0%nat, 0)] |}.
Proof. reflexivity. Qed.

End HarnessFacts.




(** ** The report *)

Section ReportFacts.

Lemma string_app_cons (x : ascii) (a b : string) :
  String x a +:+ b = String x (a +:+ b).
Proof. reflexivity. Qed.

Lemma string_app_nil_l (b : string) : EmptyString +:+ b = b.
Proof. reflexivity. Qed.

Lemma string_app_assoc (a b c : string) : (a +:+ b) +:+ c = a +:+ (b +:+ c).
Proof.
  induction a as [|x a IH]; [done|]. by rewrite !string_app_cons, IH.
Qed.

Lemma string_app_nil_r (a : string) : a +:+ EmptyString = a.
Proof.
  induction a as [|x a IH]; [done|]. by rewrite string_app_cons, IH.
Qed.

Lemma no_nl_app (a b : string) : no_nl (a +:+ b) = no_nl a && no_nl b.
Proof.
  induction a as [|x a IH]; [done|].
  rewrite string_app_cons. simpl. rewrite IH. by rewrite andb_assoc.
Qed.

(** A piece without line feed, then a line feed: the piece is a line. *)
Lemma lines_app_nl (a rest : string) :
  no_nl a = true -> lines (a +:+ nl +:+ rest) = a :: lines rest.
Proof.
  induction a as [|c a IH]; [done|]. rewrite string_app_cons.
  cbn [no_nl lines]. intros [Hc Ha]%andb_true_iff.
  destruct (Ascii.eqb c "010"); [done|]. by rewrite (IH Ha).
Qed.

Lemma no_nl_pretty_N_char (x : N) : Ascii.eqb (pretty_N_char x) "010" = false.
Proof. unfold pretty_N_char. by repeat case_match. Qed.

Lemma no_nl_pretty_N_go (x : N) (s : string) :
  no_nl s = true -> no_nl (pretty_N_go x s) = true.
Proof.
  revert s. induction (N.lt_wf_0 x) as [x _ IH]; intros s Hs.
  destruct (decide (x = 0)%N) as [->|Hx].
  - by rewrite pretty_N_go_0.
  - rewrite pretty_N_go_step by lia. apply IH.
    + apply N.div_lt; lia.
    + cbn. by rewrite no_nl_pretty_N_char.
Qed.

Lemma no_nl_pretty_N (x : N) : no_nl (pretty x) = true.
Proof.
  unfold pretty, pretty_N. case_decide; [done|]. by apply no_nl_pretty_N_go.
Qed.

Lemma no_nl_pretty_Z (x : Z) : no_nl (pretty x) = true.
Proof.
  destruct x as [|p|p]; unfold pretty, pretty_Z; [done| |].
  - apply no_nl_pretty_N.
  - rewrite no_nl_app. cbn. apply no_nl_pretty_N.
Qed.

Lemma no_nl_cells_text (db : Table) : no_nl (cells_text db) = true.
Proof.
  induction db as [|x db IH]; simpl; [done|].
  rewrite !no_nl_app, no_nl_pretty_Z, IH. done.
Qed.

Lemma put_database_cells (db : Table) (os : ostream) :
  put_database os db = os +:+ cells_text db.
Proof.
  unfold put_database. revert os.
  induction db as [|x db IH]; intros os; cbn.
  - by rewrite string_app_nil_r.
  - rewrite IH. unfold put_string, put_int. by rewrite !string_app_assoc.
Qed.

Lemma testDatabase_report_text (V : DBTYPE) (elapsed : Z) (db : Table) (os : ostream) :
  testDatabase_report V elapsed db os = os +:+ block_text V elapsed db.
Proof.
  unfold testDatabase_report, block_text, block_lines, endl, put_string, put_int.
  rewrite put_database_cells. fold (verdict_text db).
  cbn [foldr]. rewrite !string_app_assoc. done.
Qed.

Lemma no_nl_DATABASE_TYPE (V : DBTYPE) : no_nl (DATABASE_TYPE V) = true.
Proof. by destruct V. Qed.

Lemma no_nl_verdict_text (db : Table) : no_nl (verdict_text db) = true.
Proof. unfold verdict_text. cbn. by destruct (forallb _ db). Qed.

Lemma lines_unlines (ls : list string) (rest : string) :
  Forall (fun l => no_nl l = true) ls ->
  lines (foldr (fun l s => l +:+ nl +:+ s) EmptyString ls +:+ rest)
  = ls ++ lines rest.
Proof.
  induction 1 as [|l ls Hl _ IH]; [done|]. cbn [foldr app].
  rewrite (string_app_assoc l), (string_app_assoc nl).
  by rewrite (lines_app_nl l _ Hl), IH.
Qed.

Lemma lines_block_text (V : DBTYPE) (elapsed : Z) (db : Table) (rest : string) :
  lines (block_text V elapsed db +:+ rest)
  = block_lines V elapsed db ++ lines rest.
Proof.
  apply lines_unlines. unfold block_lines. repeat constructor.
  - by rewrite !no_nl_app, no_nl_DATABASE_TYPE.
  - by rewrite !no_nl_app, no_nl_pretty_Z.
  - by rewrite !no_nl_app, no_nl_cells_text.
  - by rewrite !no_nl_app, no_nl_verdict_text.
Qed.

End ReportFacts.

(** C6 as stated does not hold: when every run takes 7 ms and leaves the
    table at zero, the second line of the output is not the line of the
    stated format, whatever the integer. *)
Lemma elapsed_line_has_no_space_before_ms :
  lines (main (fun _ => (7, Database.new)) EmptyString) !! 1%nat
    = Some "  Elapsed Time:      7ms"
  /\ ¬ (exists n : Z,
          lines (main (fun _ => (7, Database.new)) EmptyString) !! 1%nat
          = Some (spec_elapsed_line n)).
Proof.
  split; [reflexivity|]. intros [n Hn].
  change (lines (main (fun _ => (7, Database.new)) EmptyString) !! 1%nat)
    with (Some "  Elapsed Time:      7ms") in Hn.
  unfold spec_elapsed_line in Hn. injection Hn as Hn.
  destruct (pretty n) as [|c1 [|c2 [|c3 [|c4 s]]]]; cbv in Hn; discriminate.
Qed.

(** C6 (amended). The output of [main] is four blocks of four lines, for
    the classes [Database], [SingleMutexDatabase], [SharedMutexDatabase],
    [SplitMutexDatabase] in this order, under the labels
    [non-threadsafe database], [single mutex database],
    [shared mutex database], [split mutex database]; the second line of a
    block is the elapsed-time prefix, the integer and [ms] with nothing
    between them. *)
Theorem main_output_lines (r : DBTYPE -> Z * Table) :
  lines (main r EmptyString)
  = [ "Results for non-threadsafe database:";
      "  Elapsed Time:      " +:+ pretty (r Database).1 +:+ "ms";
      "  Database Contents: " +:+ cells_text (r Database).2;
      "  All Zero:          " +:+ verdict_text (r Database).2;
      "Results for single mutex database:";
      "  Elapsed Time:      " +:+ pretty (r SingleMutexDatabase).1 +:+ "ms";
      "  Database Contents: " +:+ cells_text (r SingleMutexDatabase).2;
      "  All Zero:          " +:+ verdict_text (r SingleMutexDatabase).2;
      "Results for shared mutex database:";
      "  Elapsed Time:      " +:+ pretty (r SharedMutexDatabase).1 +:+ "ms";
      "  Database Contents: " +:+ cells_text (r SharedMutexDatabase).2;
      "  All Zero:          " +:+ verdict_text (r SharedMutexDatabase).2;
      "Results for split mutex database:";
      "  Elapsed Time:      " +:+ pretty (r SplitMutexDatabase).1 +:+ "ms";
      "  Database Contents: " +:+ cells_text (r SplitMutexDatabase).2;
      "  All Zero:          " +:+ verdict_text (r SplitMutexDatabase).2;
      EmptyString ].
Proof.
  unfold main. cbv zeta. rewrite !testDatabase_report_text.
  rewrite !string_app_assoc, string_app_nil_l.
  rewrite <- (string_app_nil_r (block_text SplitMutexDatabase _ _)).
  rewrite !lines_block_text. reflexivity.
Qed.

(** ** Concurrent runs *)

Section ConcFacts.

Lemma sumZ_app {A} (f : A -> Z) (l k : list A) :
  sumZ f (l ++ k) = sumZ f l + sumZ f k.
Proof. induction l as [|a l IH]; simpl; [done|]. rewrite IH. lia. Qed.

Lemma sumZ_perm {A} (f : A -> Z) (l k : list A) : l ≡ₚ k -> sumZ f l = sumZ f k.
Proof. induction 1; simpl; lia. Qed.

Lemma sumZ_insert {A} (f : A -> Z) (l : list A) (t : nat) (x y : A) :
  l !! t = Some x -> sumZ f (<[t := y]> l) = sumZ f l - f x + f y.
Proof.
  revert t. induction l as [|a l IH]; intros [|t] Hl; simplify_eq/=; [lia|].
  rewrite (IH t) by done. lia.
Qed.

Lemma sumZ_zero {A} (f : A -> Z) (l : list A) :
  (forall a, a ∈ l -> f a = 0) -> sumZ f l = 0.
Proof.
  induction l as [|a l IH]; intros Hf; simpl; [done|].
  rewrite IH, Hf; [done|apply list_elem_of_here|].
  intros b Hb. apply Hf. by apply list_elem_of_further.
Qed.

Lemma conflicts_sym (g g' : Guard) : conflicts g g' = conflicts g' g.
Proof.
  destruct g, g'; simpl; try done. apply bool_decide_ext. naive_solver.
Qed.

(** In a locked class the guards of two updates of one cell exclude each
    other. *)
Lemma update_guard_excl (V : DBTYPE) (i : nat) :
  synchronized V = true ->
  exists g, update_guard V i = Some g /\ conflicts g g = true.
Proof.
  destruct V; intros Hs; try done; simpl; eexists; (split; [done|]); simpl; try done.
  all: by apply bool_decide_eq_true.
Qed.

Lemma guard_free_spec (g : Guard) (hs : list (nat * Guard)) :
  guard_free (Some g) hs = true <->
  forall u g', (u, g') ∈ hs -> conflicts g g' = false.
Proof.
  unfold guard_free. rewrite forallb_forall. split.
  - intros Hall u g' Hin. apply list_elem_of_In in Hin.
    specialize (Hall _ Hin). simpl in Hall. by apply negb_true_iff.
  - intros Hall [u g'] Hin. apply list_elem_of_In in Hin.
    simpl. apply negb_true_iff. by eapply Hall.
Qed.

Lemma elem_of_release (t u : nat) (g : Guard) (hs : list (nat * Guard)) :
  (u, g) ∈ release t hs <-> u ≠ t /\ (u, g) ∈ hs.
Proof. unfold release. by rewrite list_elem_of_filter. Qed.

Lemma CInv_exec (V : DBTYPE) (t : nat) (s s' : Conc) :
  synchronized V = true -> CInv V s -> exec V t s = Some s' -> CInv V s'.
Proof.
  intros Hsync [Hwf Hheld Hexcl Hloaded Hsum] Hexec.
  unfold exec in Hexec.
  destruct (threads s !! t) as [[ph td]|] eqn:Ht; simpl in Hexec; [|done].
  destruct td as [|c rest]; [done|].
  assert (t < length (threads s))%nat as Hlt by (by eapply lookup_lt_Some).
  destruct ph as [| |x|].
  - (* the guard is constructed *)
    destruct (guard_free (guard_of V c) (held s)) eqn:Hfree; [|done].
    injection Hexec as <-. split; cbn [data_ held threads].
    + done.
    + intros u g. setoid_rewrite list_lookup_insert_Some.
      destruct (guard_of V c) as [gc|] eqn:Hgc; cbn [acquire].
      * rewrite elem_of_cons, Hheld. split.
        -- intros [[= -> ->]|(th & Hu & Hh)].
           ++ eexists. split; [left; done|]. unfold holding; simpl. done.
           ++ exists th. split; [|done]. right. split; [|done].
              intros ->. rewrite Ht in Hu. injection Hu as <-. done.
        -- intros (th & [(<- & <- & _)|[Hne Hu]] & Hh).
           ++ left. unfold holding in Hh; simpl in Hh. congruence.
           ++ right. eauto.
      * rewrite Hheld. split.
        -- intros (th & Hu & Hh). exists th. split; [|done]. right. split; [|done].
           intros ->. rewrite Ht in Hu. injection Hu as <-. done.
        -- intros (th & [(<- & <- & _)|[Hne Hu]] & Hh).
           ++ unfold holding in Hh; simpl in Hh. congruence.
           ++ eauto.
    + intros u1 u2 th1 th2 g g' Hne.
      rewrite !list_lookup_insert_Some.
      intros [(<- & <- & _)|[Hne1 Hu1]] [(<- & <- & _)|[Hne2 Hu2]] Hh1 Hh2; try done.
      * unfold holding in Hh1; simpl in Hh1. rewrite Hh1 in Hfree.
        eapply guard_free_spec; [done|]. apply Hheld. eauto.
      * unfold holding in Hh2; simpl in Hh2. rewrite Hh2 in Hfree.
        rewrite conflicts_sym.
        eapply guard_free_spec; [done|]. apply Hheld. eauto.
      * by eapply (Hexcl u1 u2).
    + intros u x i v rest'. rewrite list_lookup_insert_Some.
      intros [(_ & [=] & _)|[Hne Hu]]. by eapply Hloaded.
    + intros cell x Hx. rewrite (sumZ_insert _ _ _ _ _ Ht).
      specialize (Hsum _ _ Hx). unfold pending at 2 3. simpl.
      rewrite <- Hsum. f_equal. lia.
  - (* the cell is read *)
    destruct (data_ s !! call_index c) as [x|] eqn:Hx; simpl in Hexec; [|done].
    injection Hexec as <-. split; cbn [data_ held threads set_thread].
    + done.
    + intros u g. rewrite Hheld. setoid_rewrite list_lookup_insert_Some. split.
      * intros (th & Hu & Hh). destruct (decide (t = u)) as [<-|Hne].
        -- rewrite Ht in Hu. injection Hu as <-. eexists. split; [left; done|]. done.
        -- exists th. eauto.
      * intros (th & [(<- & <- & _)|[Hne Hu]] & Hh); [|by eauto].
        eexists. split; [done|]. done.
    + intros u1 u2 th1 th2 g g' Hne.
      rewrite !list_lookup_insert_Some.
      intros [(<- & <- & _)|[Hne1 Hu1]] [(<- & <- & _)|[Hne2 Hu2]] Hh1 Hh2; try done.
      * by eapply (Hexcl t u2 _ _ _ _ Hne Ht Hu2).
      * by eapply (Hexcl u1 t _ _ _ _ Hne Hu1 Ht).
      * by eapply (Hexcl u1 u2).
    + intros u y i v rest'. rewrite list_lookup_insert_Some.
      intros [(_ & Heq & _)|[Hne Hu]]; [|by eapply Hloaded].
      injection Heq as -> -> ->. done.
    + intros cell y Hy. rewrite (sumZ_insert _ _ _ _ _ Ht).
      specialize (Hsum _ _ Hy). unfold pending at 2 3. simpl.
      rewrite <- Hsum. f_equal. lia.
  - (* the call stores or returns *)
    injection Hexec as <-.
    assert (forall u g, (exists th, <[t:={| phase := Done; todo := c :: rest |}]> (threads s) !! u = Some th
                            /\ holding V th = Some g)
                        <-> exists th, threads s !! u = Some th /\ holding V th = Some g) as Hhold.
    { intros u g. setoid_rewrite list_lookup_insert_Some. split.
      - intros (th & [(<- & <- & _)|[Hne Hu]] & Hh); [|by eauto].
        eexists. split; [done|]. done.
      - intros (th & Hu & Hh). destruct (decide (t = u)) as [<-|Hne].
        + rewrite Ht in Hu. injection Hu as <-. eexists. split; [left; done|]. done.
        + exists th. eauto. }
    assert (forall u1 u2 th1 th2 g g', u1 ≠ u2 ->
              <[t:={| phase := Done; todo := c :: rest |}]> (threads s) !! u1 = Some th1 ->
              <[t:={| phase := Done; todo := c :: rest |}]> (threads s) !! u2 = Some th2 ->
              holding V th1 = Some g -> holding V th2 = Some g' -> conflicts g g' = false) as Hexcl'.
    { intros u1 u2 th1 th2 g g' Hne.
      rewrite !list_lookup_insert_Some.
      intros [(<- & <- & _)|[Hne1 Hu1]] [(<- & <- & _)|[Hne2 Hu2]] Hh1 Hh2; try done.
      * by eapply (Hexcl t u2 _ _ _ _ Hne Ht Hu2).
      * by eapply (Hexcl u1 t _ _ _ _ Hne Hu1 Ht).
      * by eapply (Hexcl u1 u2). }
    destruct c as [i|i v]; split; cbn [data_ held threads commit].
    + done.
    + intros u g. by rewrite Hheld, Hhold.
    + done.
    + intros u y j w rest'. rewrite list_lookup_insert_Some.
      intros [(_ & [=] & _)|[Hne Hu]]. by eapply Hloaded.
    + intros cell y Hy. rewrite (sumZ_insert _ _ _ _ _ Ht).
      specialize (Hsum _ _ Hy). unfold pending at 2 3. simpl.
      rewrite <- Hsum. f_equal. lia.
    + apply wf_insert; [done|apply add64_in_range].
    + intros u g. by rewrite Hheld, Hhold.
    + done.
    + intros u y j w rest'. rewrite list_lookup_insert_Some.
      intros [(_ & [=] & _)|[Hne Hu]].
      destruct (decide (i = j)) as [<-|Hij]; [|rewrite list_lookup_insert_ne by done; by eapply Hloaded].
      exfalso. destruct (update_guard_excl V i Hsync) as (g & Hg & Hgg).
      assert (conflicts g g = false) as Hno; [|congruence].
      eapply (Hexcl t u _ _ g g Hne Ht Hu); done.
    + intros cell y Hy. rewrite (sumZ_insert _ _ _ _ _ Ht).
      unfold pending at 2 3. simpl.
      pose proof (Hloaded _ _ _ _ _ Ht) as Hxi.
      destruct (decide (i = cell)) as [<-|Hic].
      * rewrite list_lookup_insert_eq in Hy by (by eapply lookup_lt_Some).
        injection Hy as <-. specialize (Hsum _ _ Hxi).
        rewrite <- Hsum. rewrite Zplus_mod, add64_mod, <- Zplus_mod. f_equal. lia.
      * rewrite list_lookup_insert_ne in Hy by done.
        specialize (Hsum _ _ Hy). rewrite <- Hsum. f_equal. lia.
  - (* the guard is destroyed *)
    injection Hexec as <-. split; cbn [data_ held threads].
    + done.
    + intros u g. rewrite elem_of_release, Hheld.
      setoid_rewrite list_lookup_insert_Some. split.
      * intros (Hne & th & Hu & Hh). exists th. eauto.
      * intros (th & [(<- & <- & _)|[Hne Hu]] & Hh); [done|]. eauto.
    + intros u1 u2 th1 th2 g g' Hne.
      rewrite !list_lookup_insert_Some.
      intros [(<- & <- & _)|[Hne1 Hu1]] [(<- & <- & _)|[Hne2 Hu2]] Hh1 Hh2; try done.
      by eapply (Hexcl u1 u2).
    + intros u y i v rest'. rewrite list_lookup_insert_Some.
      intros [(_ & [=] & _)|[Hne Hu]]. by eapply Hloaded.
    + intros cell y Hy. rewrite (sumZ_insert _ _ _ _ _ Ht).
      specialize (Hsum _ _ Hy). unfold pending at 2 3. simpl.
      rewrite <- Hsum. f_equal. lia.
Qed.

End ConcFacts.

Section RunFacts.

(** Runs by schedule are the runs of the step relation. *)
Lemma run_schedule_rtc (V : DBTYPE) (s s' : Conc) :
  rtc (step V) s s' <-> exists sched, run_schedule V sched s = Some s'.
Proof.
  split.
  - induction 1 as [s|s s1 s' [t Hexec] _ [sched Hrun]].
    + by exists [].
    + exists (t :: sched). simpl. by rewrite Hexec.
  - intros [sched Hrun]. revert s Hrun.
    induction sched as [|t sched IH]; intros s Hrun; simpl in Hrun.
    + injection Hrun as <-. done.
    + destruct (exec V t s) as [s1|] eqn:Hexec; [|done].
      eapply rtc_l; [by exists t|]. by apply IH.
Qed.

Lemma CInv_run (V : DBTYPE) (sched : list nat) (s s' : Conc) :
  synchronized V = true -> CInv V s -> run_schedule V sched s = Some s' -> CInv V s'.
Proof.
  intros Hsync. revert s. induction sched as [|t sched IH]; intros s Hinv Hrun; simpl in Hrun.
  - by injection Hrun as <-.
  - destruct (exec V t s) as [s1|] eqn:Hexec; [|done]. simpl in Hrun.
    eapply IH; [|done]. by eapply CInv_exec.
Qed.

Lemma lookup_map_spawn (bodies : list (list Call)) (t : nat) (th : Thread) :
  map spawn bodies !! t = Some th -> exists body, th = spawn body /\ bodies !! t = Some body.
Proof.
  revert t. induction bodies as [|b bodies IH]; intros [|t] Hl; simplify_eq/=; eauto.
Qed.

Lemma sumZ_map {A B} (f : B -> Z) (g : A -> B) (l : list A) :
  sumZ f (map g l) = sumZ (fun a => f (g a)) l.
Proof. induction l as [|a l IH]; simpl; [done|]. by rewrite IH. Qed.

Lemma sumZ_concat {A} (f : A -> Z) (ls : list (list A)) :
  sumZ f (concat ls) = sumZ (sumZ f) ls.
Proof. induction ls as [|l ls IH]; simpl; [done|]. by rewrite sumZ_app, IH. Qed.

Lemma new_lookup (cell : nat) (x : Z) :
  Database.new !! cell = Some x -> x = 0 /\ (cell < Database.DATABASE_SIZE)%nat.
Proof.
  unfold Database.new. intros Hl. apply lookup_replicate in Hl. lia.
Qed.

(** The state at the start of a run whose bodies add in total nothing to
    any cell. *)
Lemma CInv_start (V : DBTYPE) (bodies : list (list Call)) :
  (forall cell, (cell < Database.DATABASE_SIZE)%nat ->
     sumZ (sumZ (delta_on cell)) bodies = 0) ->
  CInv V (start bodies).
Proof.
  intros Hzero. split; cbn [start data_ held threads].
  - apply wf_new.
  - intros t g. split.
    + intros Hin. by apply not_elem_of_nil in Hin.
    + intros (th & Hl & Hh). apply lookup_map_spawn in Hl as (body & -> & _). done.
  - intros t u tht thu g g' _ Hl _ Hh. apply lookup_map_spawn in Hl as (body & -> & _). done.
  - intros t x i v rest Hl. apply lookup_map_spawn in Hl as (body & [=] & _).
  - intros cell x Hx. apply new_lookup in Hx as [-> Hcell].
    rewrite sumZ_map. unfold pending, spawn. cbn [phase todo].
    change (fun a : list Call => sumZ (delta_on cell) a) with (sumZ (delta_on cell)).
    by rewrite Hzero.
Qed.

Lemma finished_pending (cell : nat) (th : Thread) :
  finished th = true -> pending cell th = 0.
Proof. destruct th as [[] []]; done. Qed.

(** After the joins of a run in a locked class every cell is zero. *)
Lemma joined_all_zero (V : DBTYPE) (s : Conc) :
  CInv V s -> joined s = true -> Forall (fun x => x = 0) (data_ s).
Proof.
  intros [Hwf _ _ _ Hsum] Hj. apply Forall_lookup. intros cell x Hx.
  specialize (Hsum _ _ Hx). rewrite sumZ_zero in Hsum.
  - destruct Hwf as [_ Hrange]. rewrite Forall_lookup in Hrange.
    specialize (Hrange _ _ Hx). unfold Int.in_int64 in Hrange.
    rewrite Z.add_0_r in Hsum. apply Z.mod_divide in Hsum; [|lia].
    destruct Hsum as [k Hk]. lia.
  - intros th Hth. apply finished_pending.
    unfold joined in Hj. rewrite forallb_forall in Hj. apply Hj.
    by apply list_elem_of_In.
Qed.

Lemma isAllZero_Forall (t : Table) :
  Forall (fun x => x = 0) t -> Database.isAllZero t = (Ok true, t).
Proof.
  intros Hall. unfold Database.isAllZero. do 2 f_equal.
  apply forallb_forall. intros x Hx. apply Z.eqb_eq.
  rewrite Forall_forall in Hall. apply Hall. by apply list_elem_of_In.
Qed.

End RunFacts.

Section WorkloadFacts.
Context `{UniformInt}.

Lemma getIndices_elem (seed : Z) (i : nat) :
  i ∈ getIndicesInShuffledOrder seed <-> (i < Database.DATABASE_SIZE)%nat.
Proof. rewrite (getIndices_perm seed), elem_of_seq. lia. Qed.

Lemma delta_once (cell : nat) (v : Z) :
  (cell < Database.DATABASE_SIZE)%nat ->
  sumZ (fun i => if decide (i = cell) then v else 0) (seq 0 Database.DATABASE_SIZE) = v.
Proof.
  unfold Database.DATABASE_SIZE. intros Hc.
  do 10 (destruct cell as [|cell]; [simpl; lia|]). lia.
Qed.

(** One routine call adds its value once to every cell. *)
Lemma updateAll_delta (cell : nat) (v seed : Z) :
  (cell < Database.DATABASE_SIZE)%nat ->
  sumZ (delta_on cell) (updateAllInRandomOrder v seed) = v.
Proof.
  intros Hc. unfold updateAllInRandomOrder. rewrite sumZ_map. cbn [delta_on].
  rewrite (sumZ_perm _ _ _ (getIndices_perm seed)). by apply delta_once.
Qed.

Lemma readAll_delta (cell : nat) (seed : Z) :
  sumZ (delta_on cell) (readAllInRandomOrder seed) = 0.
Proof.
  unfold readAllInRandomOrder. rewrite sumZ_map. by apply sumZ_zero.
Qed.

Lemma updater_delta (seeds : nat -> nat -> Z) (k cell : nat) :
  (cell < Database.DATABASE_SIZE)%nat ->
  sumZ (delta_on cell) (updater seeds k) = 0.
Proof.
  intros Hc. unfold updater. rewrite !sumZ_app, !updateAll_delta by done. lia.
Qed.

Lemma reader_delta (seeds : nat -> nat -> Z) (k cell : nat) :
  sumZ (delta_on cell) (reader seeds k) = 0.
Proof. apply readAll_delta. Qed.

Lemma testDatabase_bodies_delta (seeds : nat -> nat -> Z) (cell : nat) :
  (cell < Database.DATABASE_SIZE)%nat ->
  sumZ (sumZ (delta_on cell)) (testDatabase_bodies seeds) = 0.
Proof.
  intros Hc. unfold testDatabase_bodies. rewrite sumZ_app, !sumZ_map.
  rewrite !sumZ_zero; [done| |].
  - intros k _. apply reader_delta.
  - intros k _. by apply updater_delta.
Qed.

Lemma updateAll_in_range (v seed : Z) (c : Call) :
  c ∈ updateAllInRandomOrder v seed -> (call_index c < Database.DATABASE_SIZE)%nat.
Proof.
  unfold updateAllInRandomOrder. intros Hc. apply list_elem_of_In, in_map_iff in Hc.
  destruct Hc as (i & <- & Hi). apply list_elem_of_In, getIndices_elem in Hi. done.
Qed.

Lemma readAll_in_range (seed : Z) (c : Call) :
  c ∈ readAllInRandomOrder seed -> (call_index c < Database.DATABASE_SIZE)%nat.
Proof.
  unfold readAllInRandomOrder. intros Hc. apply list_elem_of_In, in_map_iff in Hc.
  destruct Hc as (i & <- & Hi). apply list_elem_of_In, getIndices_elem in Hi. done.
Qed.

Lemma testDatabase_bodies_in_range (seeds : nat -> nat -> Z) (body : list Call) (c : Call) :
  body ∈ testDatabase_bodies seeds -> c ∈ body ->
  (call_index c < Database.DATABASE_SIZE)%nat.
Proof.
  unfold testDatabase_bodies. rewrite elem_of_app. intros [Hb|Hb] Hc.
  - apply list_elem_of_In, in_map_iff in Hb. destruct Hb as (k & <- & _).
    unfold updater in Hc. rewrite !elem_of_app in Hc.
    destruct Hc as [Hc|[Hc|Hc]]; exact (updateAll_in_range _ _ _ Hc).
  - apply list_elem_of_In, in_map_iff in Hb. destruct Hb as (k & <- & _).
    exact (readAll_in_range _ _ Hc).
Qed.

End WorkloadFacts.

Section ScheduleFacts.

Lemma insert_middle {A} (pre post : list A) (x y : A) :
  <[length pre := y]> (pre ++ x :: post) = pre ++ y :: post.
Proof.
  replace (length pre) with (length pre + 0)%nat by lia. by rewrite insert_app_r.
Qed.

Lemma run_schedule_app (V : DBTYPE) (a b : list nat) (s : Conc) :
  run_schedule V (a ++ b) s = run_schedule V a s ≫= run_schedule V b.
Proof.
  revert s. induction a as [|t a IH]; intros s; simpl; [done|].
  destruct (exec V t s) as [s1|]; simpl; [apply IH|done].
Qed.

Lemma release_acquire (t : nat) (og : option Guard) :
  release t (acquire t og []) = [].
Proof.
  destruct og as [g|]; [|done]. unfold release, acquire.
  rewrite filter_cons. simpl. by rewrite decide_False by (intros ?; done).
Qed.

Lemma exec_idle_free (V : DBTYPE) (d : Table) (hs : list (nat * Guard))
    (pre post : list Thread) (c : Call) (rest : list Call) :
  guard_free (guard_of V c) hs = true ->
  exec V (length pre)
    {| data_ := d; held := hs; threads := pre ++ spawn (c :: rest) :: post |}
  = Some {| data_ := d;
            held := acquire (length pre) (guard_of V c) hs;
            threads := pre ++ {| phase := Entered; todo := c :: rest |} :: post |}.
Proof. intros Hfree. by rewrite exec_idle, Hfree. Qed.

Lemma exec_entered (V : DBTYPE) (d : Table) (hs : list (nat * Guard))
    (pre post : list Thread) (c : Call) (rest : list Call) (x : Z) :
  d !! call_index c = Some x ->
  exec V (length pre)
    {| data_ := d; held := hs;
       threads := pre ++ {| phase := Entered; todo := c :: rest |} :: post |}
  = Some {| data_ := d; held := hs;
            threads := pre ++ {| phase := Loaded x; todo := c :: rest |} :: post |}.
Proof.
  intros Hx. unfold exec. cbn [threads held data_].
  rewrite list_lookup_middle by done. cbn. rewrite Hx. cbn.
  unfold set_thread. cbn [threads held data_]. by rewrite insert_middle.
Qed.

Lemma exec_loaded (V : DBTYPE) (d : Table) (hs : list (nat * Guard))
    (pre post : list Thread) (c : Call) (rest : list Call) (x : Z) :
  exec V (length pre)
    {| data_ := d; held := hs;
       threads := pre ++ {| phase := Loaded x; todo := c :: rest |} :: post |}
  = Some {| data_ := commit c x d; held := hs;
            threads := pre ++ {| phase := Done; todo := c :: rest |} :: post |}.
Proof.
  unfold exec. cbn [threads held data_].
  rewrite list_lookup_middle by done. cbn. by rewrite insert_middle.
Qed.

Lemma exec_done (V : DBTYPE) (d : Table) (hs : list (nat * Guard))
    (pre post : list Thread) (c : Call) (rest : list Call) :
  exec V (length pre)
    {| data_ := d; held := hs;
       threads := pre ++ {| phase := Done; todo := c :: rest |} :: post |}
  = Some {| data_ := d; held := release (length pre) hs;
            threads := pre ++ spawn rest :: post |}.
Proof.
  unfold exec. cbn [threads held data_].
  rewrite list_lookup_middle by done. cbn. by rewrite insert_middle.
Qed.

(** One call made by a thread while no other holds a guard: four steps,
    and the call has had the effect of executing it alone. *)
Lemma run_one_call (V : DBTYPE) (d : Table) (pre post : list Thread)
    (c : Call) (rest : list Call) (x : Z) :
  d !! call_index c = Some x ->
  run_schedule V (replicate 4 (length pre))
    {| data_ := d; held := []; threads := pre ++ spawn (c :: rest) :: post |}
  = Some {| data_ := commit c x d; held := []; threads := pre ++ spawn rest :: post |}.
Proof.
  intros Hx. cbn [replicate run_schedule].
  rewrite exec_idle_free by (by destruct (guard_of V c)). cbn [mbind option_bind].
  rewrite (exec_entered _ _ _ _ _ _ _ _ Hx). cbn [mbind option_bind].
  rewrite exec_loaded. cbn [mbind option_bind].
  rewrite exec_done. cbn [mbind option_bind].
  by rewrite release_acquire.
Qed.

Lemma commit_length (c : Call) (x : Z) (d : Table) :
  length (commit c x d) = length d.
Proof. destruct c; simpl; [done|]. by rewrite length_insert. Qed.

(** A thread run alone through its whole body. *)
Lemma run_solo (V : DBTYPE) (pre post : list Thread) (body : list Call) (d : Table) :
  (forall c, c ∈ body -> (call_index c < length d)%nat) ->
  exists d', length d' = length d
    /\ run_schedule V (solo (length pre) (length body))
         {| data_ := d; held := []; threads := pre ++ spawn body :: post |}
       = Some {| data_ := d'; held := []; threads := pre ++ spawn [] :: post |}.
Proof.
  revert d. induction body as [|c body IH]; intros d Hrange.
  - exists d. done.
  - destruct (lookup_lt_is_Some_2 d (call_index c)) as [x Hx].
    { apply Hrange, list_elem_of_here. }
    destruct (IH (commit c x d)) as (d' & Hlen & Hrun).
    { intros c' Hc'. rewrite commit_length. by apply Hrange, list_elem_of_further. }
    exists d'. split; [by rewrite Hlen, commit_length|].
    unfold solo in *. cbn [length].
    replace (4 * S (length body))%nat with (4 + 4 * length body)%nat by lia.
    rewrite replicate_add, run_schedule_app, (run_one_call _ _ _ _ _ _ _ Hx).
    exact Hrun.
Qed.

(** The threads run one after the other reach the join. *)
Lemma run_one_by_one (V : DBTYPE) (bodies : list (list Call)) (pre : list Thread) (d : Table) :
  (forall body c, body ∈ bodies -> c ∈ body -> (call_index c < length d)%nat) ->
  exists d', length d' = length d
    /\ run_schedule V (one_by_one (length pre) bodies)
         {| data_ := d; held := []; threads := pre ++ map spawn bodies |}
       = Some {| data_ := d'; held := [];
                 threads := pre ++ map (fun _ => spawn []) bodies |}.
Proof.
  revert pre d. induction bodies as [|body bodies IH]; intros pre d Hrange.
  - exists d. done.
  - destruct (run_solo V pre (map spawn bodies) body d) as (d1 & Hlen1 & Hrun1).
    { intros c Hc. eapply Hrange; [apply list_elem_of_here|done]. }
    destruct (IH (pre ++ [spawn []]) d1) as (d' & Hlen & Hrun).
    { intros b c Hb Hc. rewrite Hlen1. eapply Hrange; [by apply list_elem_of_further|done]. }
    exists d'. split; [congruence|].
    cbn [one_by_one map]. rewrite run_schedule_app, Hrun1. cbn [mbind option_bind].
    rewrite length_app in Hrun. cbn [length] in Hrun.
    replace (length pre + 1)%nat with (S (length pre)) in Hrun by lia.
    rewrite <- !app_assoc in Hrun. exact Hrun.
Qed.

Lemma joined_all_spawn_nil (bodies : list (list Call)) (d : Table) :
  joined {| data_ := d; held := [];
            threads := map (fun _ => spawn []) bodies |} = true.
Proof. unfold joined. cbn [threads]. induction bodies; simpl; done. Qed.

(** Some run of the bodies reaches the join, whatever the class. *)
Lemma some_run_joins (V : DBTYPE) (bodies : list (list Call)) :
  (forall body c, body ∈ bodies -> c ∈ body ->
     (call_index c < Database.DATABASE_SIZE)%nat) ->
  exists s, run_schedule V (one_by_one 0 bodies) (start bodies) = Some s
    /\ joined s = true.
Proof.
  intros Hrange.
  destruct (run_one_by_one V bodies [] Database.new) as (d' & _ & Hrun).
  { intros body c Hb Hc. by eapply Hrange. }
  eexists. split; [exact Hrun|]. apply joined_all_spawn_nil.
Qed.

End ScheduleFacts.

Section SequentialFacts.

Lemma run_call_commit (c : Call) (d : Table) (x : Z) :
  d !! call_index c = Some x -> run_call c d = (Ok tt, commit c x d).
Proof.
  destruct c as [i|i v]; simpl; intros Hx.
  - unfold bind. by rewrite (readValue_Some _ _ _ Hx).
  - by apply updateValue_Some.
Qed.

(** Calls executed one after the other: every cell ends at its old value
    plus what the calls add to it, as [int64_t]. *)
Lemma run_calls_sum (cs : list Call) (d : Table) :
  Database.wf d ->
  (forall c, c ∈ cs -> (call_index c < Database.DATABASE_SIZE)%nat) ->
  exists d', run_calls cs d = (Ok tt, d')
    /\ Database.wf d'
    /\ forall cell x, d !! cell = Some x ->
         exists x', d' !! cell = Some x'
           /\ x' mod 2 ^ 64 = (x + sumZ (delta_on cell) cs) mod 2 ^ 64.
Proof.
  revert d. induction cs as [|c cs IH]; intros d Hwf Hrange.
  - exists d. split; [done|]. split; [done|]. intros cell x Hx.
    exists x. split; [done|]. simpl. f_equal. lia.
  - destruct (wf_lookup d (call_index c) Hwf) as (x & Hx & Hxr).
    { apply Hrange, list_elem_of_here. }
    assert (Database.wf (commit c x d)) as Hwf1.
    { destruct c; simpl; [done|]. apply wf_insert; [done|apply add64_in_range]. }
    destruct (IH (commit c x d) Hwf1) as (d' & Hrun & Hwf' & Hcells).
    { intros c' Hc'. by apply Hrange, list_elem_of_further. }
    exists d'. split; [|split; [done|]].
    + cbn [run_calls]. unfold bind at 1. by rewrite (run_call_commit _ _ _ Hx).
    + intros cell y Hy.
      assert (exists y1, commit c x d !! cell = Some y1
                /\ y1 mod 2 ^ 64 = (y + delta_on cell c) mod 2 ^ 64) as (y1 & Hy1 & Hmod).
      { destruct c as [i|i v]; cbn [commit delta_on call_index] in *.
        - exists y. split; [done|]. f_equal. lia.
        - destruct (decide (i = cell)) as [<-|Hne].
          + exists (Int.add64 x v). split.
            * apply list_lookup_insert_eq. by eapply lookup_lt_Some.
            * rewrite add64_mod. congruence.
          + exists y. split; [by rewrite list_lookup_insert_ne|]. f_equal. lia. }
      destruct (Hcells _ _ Hy1) as (x' & Hx' & Hmod').
      exists x'. split; [done|]. rewrite Hmod'.
      change (sumZ (delta_on cell) (c :: cs))
        with (delta_on cell c + sumZ (delta_on cell) cs).
      rewrite Zplus_mod, Hmod, <- Zplus_mod. f_equal. lia.
Qed.

Lemma updates_of_delta (cell : nat) (cs : list Call) :
  sumZ (delta_on cell) (updates_of cs) = sumZ (delta_on cell) cs.
Proof.
  unfold updates_of. induction cs as [|c cs IH]; [done|].
  rewrite filter_cons. destruct c as [i|i v]; case_decide; try done.
  change (sumZ (delta_on cell) (CallUpdate i v :: updates_of cs)
          = sumZ (delta_on cell) (CallUpdate i v :: cs)).
  unfold sumZ in *. cbn [foldr]. unfold updates_of. by rewrite IH.
Qed.

Lemma updates_of_elem (c : Call) (cs : list Call) : c ∈ updates_of cs -> c ∈ cs.
Proof. unfold updates_of. rewrite list_elem_of_filter. tauto. Qed.

(** The updates of bodies that add nothing in total, executed one after
    the other in any order on a fresh table, leave every cell at zero. *)
Lemma any_order_all_zero (bodies : list (list Call)) (ops : list Call) :
  (forall cell, (cell < Database.DATABASE_SIZE)%nat ->
     sumZ (sumZ (delta_on cell)) bodies = 0) ->
  (forall body c, body ∈ bodies -> c ∈ body ->
     (call_index c < Database.DATABASE_SIZE)%nat) ->
  ops ≡ₚ updates_of (concat bodies) ->
  exists t, run_calls ops Database.new = (Ok tt, t)
    /\ Database.isAllZero t = (Ok true, t).
Proof.
  intros Hzero Hrange Hperm.
  destruct (run_calls_sum ops Database.new wf_new) as (t & Hrun & Hwf & Hcells).
  { intros c Hc. rewrite Hperm in Hc. apply updates_of_elem in Hc.
    apply list_elem_of_In, in_concat in Hc as (body & Hb & Hc).
    eapply Hrange; by apply list_elem_of_In. }
  exists t. split; [done|]. apply isAllZero_Forall, Forall_lookup.
  intros cell y Hy.
  assert (cell < Database.DATABASE_SIZE)%nat as Hcell.
  { destruct Hwf as [<- _]. by eapply lookup_lt_Some. }
  destruct (wf_lookup Database.new cell wf_new Hcell) as (x & Hx & _).
  destruct (Hcells _ _ Hx) as (y' & Hy' & Hmod).
  rewrite Hy in Hy'. injection Hy' as <-.
  apply new_lookup in Hx as [-> _].
  rewrite (sumZ_perm _ _ _ Hperm), updates_of_delta, sumZ_concat, Hzero in Hmod by done.
  destruct Hwf as [_ Hr]. rewrite Forall_lookup in Hr. specialize (Hr _ _ Hy).
  unfold Int.in_int64 in Hr. change ((0 + 0) mod 2 ^ 64) with 0 in Hmod.
  apply Z.mod_divide in Hmod; [|lia]. destruct Hmod as [k Hk]. lia.
Qed.

End SequentialFacts.

Section Main.
Context `{UniformInt}.

(** C1. In each of the three locked classes, whatever seeds the threads
    read: every run of the 100 updaters and 1000 readers that reaches the
    join has left every cell at zero, so [isAllZero()] returns true; the
    threads run one after the other is such a run; and the [updateValue]
    calls of the workload executed one after the other in any order on a
    fresh table leave every cell at zero. *)
Theorem synchronized_runs_end_all_zero (V : DBTYPE) (seeds : nat -> nat -> Z) :
  synchronized V = true ->
  (forall sched s,
     run_schedule V sched (start (testDatabase_bodies seeds)) = Some s ->
     joined s = true ->
     Database.isAllZero (data_ s) = (Ok true, data_ s))
  /\ (exists s,
        run_schedule V (one_by_one 0 (testDatabase_bodies seeds))
          (start (testDatabase_bodies seeds)) = Some s
        /\ joined s = true)
  /\ (forall ops,
        ops ≡ₚ updates_of (concat (testDatabase_bodies seeds)) ->
        exists t, run_calls ops Database.new = (Ok tt, t)
          /\ Database.isAllZero t = (Ok true, t)).
Proof.
  intros Hsync. split; [|split].
  - intros sched s Hrun Hj. apply isAllZero_Forall.
    eapply joined_all_zero; [|done].
    eapply CInv_run; [done| |done].
    apply CInv_start. intros cell Hc. by apply testDatabase_bodies_delta.
  - apply some_run_joins. apply testDatabase_bodies_in_range.
  - intros ops Hperm. eapply any_order_all_zero; [| |done].
    + intros cell Hc. by apply testDatabase_bodies_delta.
    + apply testDatabase_bodies_in_range.
Qed.

End Main.

Lemma synchronized_runs_end_all_zero_witness :
  let bodies := @testDatabase_bodies mod_draw (fun k _ => Z.of_nat k) in
  exists s,
    run_schedule SplitMutexDatabase (one_by_one 0 bodies) (start bodies) = Some s
    /\ joined s = true
    /\ Database.isAllZero (data_ s) = (Ok true, data_ s)
    /\ exists t, run_calls (updates_of (concat bodies)) Database.new = (Ok tt, t)
         /\ Database.isAllZero t = (Ok true, t).
Proof.
  intros bodies.
  destruct (@synchronized_runs_end_all_zero mod_draw SplitMutexDatabase
              (fun k _ => Z.of_nat k) eq_refl) as (Hall & (s & Hrun & Hj) & Hseq).
  exists s. split; [exact Hrun|]. split; [exact Hj|].
  split; [exact (Hall _ s Hrun Hj)|].
  apply Hseq. reflexivity.
Defined.

(** Without locks the same invariant fails: two threads that each add 1 to
    cell 0 and then take it away again can both load before either stores,
    and the table ends at -1. Under one mutex the second thread has no
    step while the first is inside its call. *)
Example unlocked_run_loses_an_update :
  let body := [CallUpdate 0 1; CallUpdate 0 (-1)] in
  let sched := [0; 0; 1; 1; 0; 1; 0; 1; 0; 0; 0; 0; 1; 1; 1; 1]%nat in
  (exists s, run_schedule Database sched (start [body; body]) = Some s
     /\ joined s = true
     /\ data_ s = [-1; 0; 0; 0; 0; 0; 0; 0; 0; 0]
     /\ Database.isAllZero (data_ s) = (Ok false, data_ s))
  /\ run_schedule SingleMutexDatabase sched (start [body; body]) = None.
Proof.
  cbv zeta. split; [|vm_compute; reflexivity].
  exists {| data_ := [-1; 0; 0; 0; 0; 0; 0; 0; 0; 0]; held := [];
            threads := [spawn []; spawn []] |}.
  vm_compute. repeat split; reflexivity.
Qed.

(** * Further properties *)

(** ** Composition of the methods *)

Section ComposeFacts.

Lemma add64_comm_assoc (x a b : Z) :
  Int.add64 (Int.add64 x a) b = Int.add64 (Int.add64 x b) a.
Proof.
  unfold Int.add64. apply wrap64_eq_mod.
  rewrite (Zplus_mod (Int.wrap64 (x + a))), (Zplus_mod (Int.wrap64 (x + b))).
  rewrite !wrap64_mod, <- !Zplus_mod. f_equal. lia.
Qed.

Lemma add64_add64 (x a b : Z) :
  Int.add64 (Int.add64 x a) b = Int.add64 x (Int.add64 a b).
Proof.
  unfold Int.add64. apply wrap64_eq_mod.
  rewrite (Zplus_mod (Int.wrap64 (x + a))), (Zplus_mod x (Int.wrap64 (a + b))).
  rewrite !wrap64_mod, <- !Zplus_mod. f_equal. lia.
Qed.

(** Congruent modulo [2^64] and representable: the wrapped value. *)
Lemma in_int64_mod_eq (x y : Z) :
  Int.in_int64 x -> x mod 2 ^ 64 = y mod 2 ^ 64 -> x = Int.wrap64 y.
Proof.
  intros Hx Hxy. rewrite <- (wrap64_id x Hx). by apply wrap64_eq_mod.
Qed.

(** X1. Two [updateValue] calls at indices in range have the same outcome
    in either order. *)
Theorem updateValue_commute (t : Table) (i j : nat) (a b : Z) :
  Database.wf t ->
  (i < Database.DATABASE_SIZE)%nat ->
  (j < Database.DATABASE_SIZE)%nat ->
  bind (Database.updateValue i a) (fun _ => Database.updateValue j b) t
  = bind (Database.updateValue j b) (fun _ => Database.updateValue i a) t.
Proof.
  intros Hwf Hi Hj.
  destruct (wf_lookup t i Hwf Hi) as (x & Hx & _).
  destruct (wf_lookup t j Hwf Hj) as (y & Hy & _).
  assert (i < length t)%nat as Hli by (by eapply lookup_lt_Some).
  assert (j < length t)%nat as Hlj by (by eapply lookup_lt_Some).
  unfold bind.
  rewrite (updateValue_Some _ _ _ _ Hx), (updateValue_Some _ _ _ _ Hy).
  destruct (decide (i = j)) as [->|Hne].
  - rewrite Hx in Hy. injection Hy as ->.
    rewrite !(updateValue_Some _ j _ (Int.add64 _ _))
      by (by apply list_lookup_insert_eq).
    by rewrite !list_insert_insert_eq, add64_comm_assoc.
  - rewrite (updateValue_Some _ j b y) by (by rewrite list_lookup_insert_ne).
    rewrite (updateValue_Some _ i a x) by (by rewrite list_lookup_insert_ne).
    by rewrite list_insert_insert_ne.
Qed.

Lemma updateValue_commute_witness :
  bind (Database.updateValue 2 25) (fun _ => Database.updateValue 7 (-40)) Database.new
  = bind (Database.updateValue 7 (-40)) (fun _ => Database.updateValue 2 25) Database.new.
Proof.
  apply (updateValue_commute Database.new 2 7 25 (-40) wf_new);
    unfold Database.DATABASE_SIZE; lia.
Defined.

(** X2. Two [updateValue] calls at one index in range amount to one call
    with the [int64_t] sum of the two values. *)
Theorem updateValue_twice (t : Table) (i : nat) (a b : Z) :
  Database.wf t ->
  (i < Database.DATABASE_SIZE)%nat ->
  bind (Database.updateValue i a) (fun _ => Database.updateValue i b) t
  = Database.updateValue i (Int.add64 a b) t.
Proof.
  intros Hwf Hi. destruct (wf_lookup t i Hwf Hi) as (x & Hx & _).
  assert (i < length t)%nat as Hli by (by eapply lookup_lt_Some).
  unfold bind. rewrite !(updateValue_Some _ _ _ _ Hx).
  rewrite (updateValue_Some _ i b (Int.add64 x a)) by (by apply list_lookup_insert_eq).
  by rewrite list_insert_insert_eq, add64_add64.
Qed.

Lemma updateValue_twice_witness :
  bind (Database.updateValue 4 Int.INT64_MAX) (fun _ => Database.updateValue 4 1) Database.new
  = Database.updateValue 4 (Int.add64 Int.INT64_MAX 1) Database.new.
Proof.
  apply (updateValue_twice Database.new 4 Int.INT64_MAX 1 wf_new).
  unfold Database.DATABASE_SIZE. lia.
Defined.

(** X3. After [updateValue(i, v)] at an index in range, [readValue(j)]
    returns, converted to [int], the new value of the cell when [j = i] and
    the value cell [j] had before when [j ≠ i]; a [j] out of range still
    throws, with the update in place. *)
Theorem readValue_after_updateValue (t : Table) (i j : nat) (v : Z) :
  Database.wf t ->
  (i < Database.DATABASE_SIZE)%nat ->
  exists x, t !! i = Some x
    /\ bind (Database.updateValue i v) (fun _ => Database.readValue j) t
       = (match (if decide (j = i) then Some (Int.add64 x v) else t !! j) with
          | Some y => Ok (Int.to_int y)
          | None => Throw OutOfRange
          end, <[i := Int.add64 x v]> t).
Proof.
  intros Hwf Hi. destruct (wf_lookup t i Hwf Hi) as (x & Hx & _).
  assert (i < length t)%nat as Hli by (by eapply lookup_lt_Some).
  exists x. split; [done|]. unfold bind. rewrite (updateValue_Some _ _ _ _ Hx).
  destruct (decide (j = i)) as [->|Hne].
  - by rewrite (readValue_Some _ i (Int.add64 x v)) by (by apply list_lookup_insert_eq).
  - destruct (t !! j) as [y|] eqn:Hy.
    + by rewrite (readValue_Some _ j y) by (by rewrite list_lookup_insert_ne).
    + by rewrite readValue_None by (by rewrite list_lookup_insert_ne).
Qed.

Lemma readValue_after_updateValue_witness :
  exists x, Database.new !! 3%nat = Some x
    /\ bind (Database.updateValue 3 15) (fun _ => Database.readValue 3) Database.new
       = (match (if decide (3%nat = 3%nat) then Some (Int.add64 x 15) else Database.new !! 3%nat) with
          | Some y => Ok (Int.to_int y)
          | None => Throw OutOfRange
          end, <[3%nat := Int.add64 x 15]> Database.new).
Proof.
  apply (readValue_after_updateValue Database.new 3 3 15 wf_new).
  unfold Database.DATABASE_SIZE. lia.
Defined.

End ComposeFacts.

(** ** The routines executed alone *)

Section RoutineFacts.

Lemma run_calls_table (cs : list Call) (t : Table) :
  Database.wf t ->
  (forall c, c ∈ cs -> (call_index c < Database.DATABASE_SIZE)%nat) ->
  run_calls cs t = (Ok tt, table_after cs t).
Proof.
  intros Hwf Hrange.
  destruct (run_calls_sum cs t Hwf Hrange) as (d' & Hrun & Hwf' & Hcells).
  rewrite Hrun. do 2 f_equal. apply list_eq. intros cell.
  unfold table_after. rewrite list_lookup_imap.
  destruct (t !! cell) as [x|] eqn:Hx; simpl.
  - destruct (Hcells _ _ Hx) as (x' & Hx' & Hmod). rewrite Hx'. f_equal.
    apply in_int64_mod_eq; [|done].
    destruct Hwf' as [_ Hr]. rewrite Forall_lookup in Hr. by eapply Hr.
  - apply lookup_ge_None. apply lookup_ge_None in Hx.
    destruct Hwf as [Hl _], Hwf' as [Hl' _]. lia.
Qed.

Lemma table_after_perm (cs cs' : list Call) (t : Table) :
  cs ≡ₚ cs' -> table_after cs t = table_after cs' t.
Proof.
  intros Hp. unfold table_after. apply imap_ext. intros cell x _.
  by rewrite (sumZ_perm _ _ _ Hp).
Qed.

(** X4. Calls at indices in range, executed one after the other, never
    throw, and the table they leave does not depend on their order: each
    cell holds the [int64_t] sum of its old value and the values of the
    updates at that cell. *)
Theorem run_calls_any_order (cs cs' : list Call) (t : Table) :
  Database.wf t ->
  (forall c, c ∈ cs -> (call_index c < Database.DATABASE_SIZE)%nat) ->
  cs ≡ₚ cs' ->
  run_calls cs t = (Ok tt, table_after cs t)
  /\ run_calls cs' t = run_calls cs t.
Proof.
  intros Hwf Hrange Hp. split; [by apply run_calls_table|].
  rewrite !run_calls_table; try done.
  - by rewrite (table_after_perm _ _ _ Hp).
  - intros c Hc. apply Hrange. by rewrite Hp.
Qed.

Lemma run_calls_any_order_witness :
  run_calls [CallUpdate 1 25; CallRead 1; CallUpdate 1 (-40)] Database.new
  = (Ok tt, table_after [CallUpdate 1 25; CallRead 1; CallUpdate 1 (-40)] Database.new)
  /\ run_calls [CallUpdate 1 (-40); CallUpdate 1 25; CallRead 1] Database.new
     = run_calls [CallUpdate 1 25; CallRead 1; CallUpdate 1 (-40)] Database.new.
Proof.
  apply (run_calls_any_order
           [CallUpdate 1 25; CallRead 1; CallUpdate 1 (-40)]
           [CallUpdate 1 (-40); CallUpdate 1 25; CallRead 1] Database.new wf_new).
  - intros c Hc. unfold Database.DATABASE_SIZE.
    repeat (apply elem_of_cons in Hc as [->|Hc]; [simpl; lia|]).
    by apply not_elem_of_nil in Hc.
  - symmetry. exact (Permutation_cons_append [_; _] _).
Defined.

Context `{UniformInt}.

(** X5. [updateAllInRandomOrder(database, value, seed)] executed alone adds
    [value] to every cell, whatever the seed. *)
Theorem updateAll_adds_to_every_cell (t : Table) (value seed : Z) :
  Database.wf t ->
  run_calls (updateAllInRandomOrder value seed) t
  = (Ok tt, (fun x => Int.add64 x value) <$> t).
Proof.
  intros Hwf. rewrite run_calls_table; [|done|apply updateAll_in_range].
  do 2 f_equal. apply list_eq. intros cell.
  unfold table_after. rewrite list_lookup_imap, list_lookup_fmap.
  destruct (t !! cell) as [x|] eqn:Hx; simpl; [|done].
  rewrite updateAll_delta; [done|].
  destruct Hwf as [<- _]. by eapply lookup_lt_Some.
Qed.

(** X6. [readAllInRandomOrder(database, seed)] executed alone makes one
    [readValue] call for each index 0..9, never throws and leaves the table
    as it is. *)
Theorem readAll_reads_every_cell_once (t : Table) (seed : Z) :
  Database.wf t ->
  readAllInRandomOrder seed ≡ₚ map CallRead (seq 0 Database.DATABASE_SIZE)
  /\ run_calls (readAllInRandomOrder seed) t = (Ok tt, t).
Proof.
  intros Hwf. split.
  - unfold readAllInRandomOrder. apply Permutation_map, getIndices_perm.
  - rewrite run_calls_table; [|done|apply readAll_in_range].
    do 2 f_equal. apply list_eq. intros cell.
    unfold table_after. rewrite list_lookup_imap.
    destruct (t !! cell) as [x|] eqn:Hx; simpl; [|done].
    rewrite readAll_delta, Z.add_0_r, wrap64_id; [done|].
    destruct Hwf as [_ Hr]. rewrite Forall_lookup in Hr. by eapply Hr.
Qed.

(** X7. The body of an updater thread executed alone (the three routine
    calls with +25, -40 and +15) gives back the table it started from,
    whatever seeds the three calls read. *)
Theorem updater_alone_restores (t : Table) (seeds : nat -> nat -> Z) (k : nat) :
  Database.wf t ->
  run_calls (updater seeds k) t = (Ok tt, t).
Proof.
  intros Hwf. rewrite run_calls_table; [|done|].
  - do 2 f_equal. apply list_eq. intros cell.
    unfold table_after. rewrite list_lookup_imap.
    destruct (t !! cell) as [x|] eqn:Hx; simpl; [|done].
    rewrite updater_delta, Z.add_0_r, wrap64_id; [done| |].
    + destruct Hwf as [_ Hr]. rewrite Forall_lookup in Hr. by eapply Hr.
    + destruct Hwf as [<- _]. by eapply lookup_lt_Some.
  - intros c. unfold updater. rewrite !elem_of_app.
    intros [Hc|[Hc|Hc]]; exact (updateAll_in_range _ _ _ Hc).
Qed.

End RoutineFacts.

Lemma updateAll_adds_to_every_cell_witness :
  run_calls (@updateAllInRandomOrder mod_draw 25 42) Database.new
  = (Ok tt, (fun x => Int.add64 x 25) <$> Database.new).
Proof. apply (@updateAll_adds_to_every_cell mod_draw Database.new 25 42 wf_new). Defined.

Lemma readAll_reads_every_cell_once_witness :
  @readAllInRandomOrder mod_draw 42 ≡ₚ map CallRead (seq 0 Database.DATABASE_SIZE)
  /\ run_calls (@readAllInRandomOrder mod_draw 42) Database.new = (Ok tt, Database.new).
Proof. apply (@readAll_reads_every_cell_once mod_draw Database.new 42 wf_new). Defined.

Lemma updater_alone_restores_witness :
  run_calls (@updater mod_draw (fun k j => Z.of_nat (k + j)) 0) Database.new
  = (Ok tt, Database.new).
Proof.
  apply (@updater_alone_restores mod_draw Database.new (fun k j => Z.of_nat (k + j)) 0 wf_new).
Defined.

(** ** Mutual exclusion *)

Section GuardFacts.

Lemma LInv_start (V : DBTYPE) (bodies : list (list Call)) : LInv V (start bodies).
Proof.
  split; cbn [start data_ held threads].
  - intros t th Hl. apply lookup_map_spawn in Hl as (body & -> & _). done.
  - intros t g. split.
    + intros Hin. by apply not_elem_of_nil in Hin.
    + intros (th & Hl & Hh). apply lookup_map_spawn in Hl as (body & -> & _). done.
  - intros t u tht thu g g' _ Hl _ Hh. apply lookup_map_spawn in Hl as (body & -> & _). done.
Qed.

(** A step that keeps the guard of the moving thread and its call keeps
    the whole invariant. *)
Lemma LInv_same_guard (V : DBTYPE) (s : Conc) (t : nat) (th th' : Thread) (d : Table) :
  LInv V s -> threads s !! t = Some th ->
  holding V th' = holding V th ->
  (inside th' = true -> todo th' ≠ []) ->
  LInv V {| data_ := d; held := held s; threads := <[t := th']> (threads s) |}.
Proof.
  intros [Hphase Hheld Hexcl] Ht Hsame Hne.
  assert (t < length (threads s))%nat as Hlt by (by eapply lookup_lt_Some).
  split; cbn [data_ held threads].
  - intros u thu. rewrite list_lookup_insert_Some.
    intros [(<- & <- & _)|[_ Hu]]; [done|by eapply Hphase].
  - intros u g. rewrite Hheld. setoid_rewrite list_lookup_insert_Some. split.
    + intros (thu & Hu & Hh). destruct (decide (t = u)) as [<-|Hnu].
      * rewrite Ht in Hu. injection Hu as <-. exists th'. split; [by left|congruence].
      * exists thu. eauto.
    + intros (thu & [(<- & <- & _)|[Hnu Hu]] & Hh); [|by eauto].
      exists th. split; [done|congruence].
  - intros u1 u2 th1 th2 g g' Hne12. rewrite !list_lookup_insert_Some.
    intros [(<- & <- & _)|[Hne1 Hu1]] [(<- & <- & _)|[Hne2 Hu2]] Hh1 Hh2; try done.
    + rewrite Hsame in Hh1. by eapply (Hexcl t u2 _ _ _ _ Hne12 Ht Hu2).
    + rewrite Hsame in Hh2. by eapply (Hexcl u1 t _ _ _ _ Hne12 Hu1 Ht).
    + by eapply (Hexcl u1 u2).
Qed.

Lemma LInv_exec (V : DBTYPE) (t : nat) (s s' : Conc) :
  LInv V s -> exec V t s = Some s' -> LInv V s'.
Proof.
  intros Hinv Hexec. unfold exec in Hexec.
  destruct (threads s !! t) as [[ph td]|] eqn:Ht; simpl in Hexec; [|done].
  destruct td as [|c rest]; [done|].
  assert (t < length (threads s))%nat as Hlt by (by eapply lookup_lt_Some).
  destruct ph as [| |x|].
  - destruct (guard_free (guard_of V c) (held s)) eqn:Hfree; [|done].
    injection Hexec as <-. destruct Hinv as [Hphase Hheld Hexcl].
    split; cbn [data_ held threads].
    + intros u thu. rewrite list_lookup_insert_Some.
      intros [(<- & <- & _)|[_ Hu]]; [done|by eapply Hphase].
    + intros u g. setoid_rewrite list_lookup_insert_Some.
      destruct (guard_of V c) as [gc|] eqn:Hgc; cbn [acquire].
      * rewrite elem_of_cons, Hheld. split.
        -- intros [[= -> ->]|(th & Hu & Hh)].
           ++ eexists. split; [left; done|]. unfold holding; simpl. done.
           ++ exists th. split; [|done]. right. split; [|done].
              intros ->. rewrite Ht in Hu. injection Hu as <-. done.
        -- intros (th & [(<- & <- & _)|[Hne Hu]] & Hh).
           ++ left. unfold holding in Hh; simpl in Hh. congruence.
           ++ right. eauto.
      * rewrite Hheld. split.
        -- intros (th & Hu & Hh). exists th. split; [|done]. right. split; [|done].
           intros ->. rewrite Ht in Hu. injection Hu as <-. done.
        -- intros (th & [(<- & <- & _)|[Hne Hu]] & Hh).
           ++ unfold holding in Hh; simpl in Hh. congruence.
           ++ eauto.
    + intros u1 u2 th1 th2 g g' Hne.
      rewrite !list_lookup_insert_Some.
      intros [(<- & <- & _)|[Hne1 Hu1]] [(<- & <- & _)|[Hne2 Hu2]] Hh1 Hh2; try done.
      * unfold holding in Hh1; simpl in Hh1. rewrite Hh1 in Hfree.
        eapply guard_free_spec; [done|]. apply Hheld. eauto.
      * unfold holding in Hh2; simpl in Hh2. rewrite Hh2 in Hfree.
        rewrite conflicts_sym.
        eapply guard_free_spec; [done|]. apply Hheld. eauto.
      * by eapply (Hexcl u1 u2).
  - destruct (data_ s !! call_index c) as [x|] eqn:Hx; simpl in Hexec; [|done].
    injection Hexec as <-. unfold set_thread.
    by eapply LInv_same_guard.
  - injection Hexec as <-. by eapply LInv_same_guard.
  - injection Hexec as <-. destruct Hinv as [Hphase Hheld Hexcl].
    split; cbn [data_ held threads].
    + intros u thu. rewrite list_lookup_insert_Some.
      intros [(<- & <- & _)|[_ Hu]]; [done|by eapply Hphase].
    + intros u g. rewrite elem_of_release, Hheld.
      setoid_rewrite list_lookup_insert_Some. split.
      * intros (Hne & th & Hu & Hh). exists th. eauto.
      * intros (th & [(<- & <- & _)|[Hne Hu]] & Hh); [done|]. eauto.
    + intros u1 u2 th1 th2 g g' Hne.
      rewrite !list_lookup_insert_Some.
      intros [(<- & <- & _)|[Hne1 Hu1]] [(<- & <- & _)|[Hne2 Hu2]] Hh1 Hh2; try done.
      by eapply (Hexcl u1 u2).
Qed.

Lemma LInv_run (V : DBTYPE) (sched : list nat) (s s' : Conc) :
  LInv V s -> run_schedule V sched s = Some s' -> LInv V s'.
Proof.
  revert s. induction sched as [|t sched IH]; intros s Hinv Hrun; simpl in Hrun.
  - by injection Hrun as <-.
  - destruct (exec V t s) as [s1|] eqn:Hexec; [|done]. simpl in Hrun.
    eapply IH; [|done]. by eapply LInv_exec.
Qed.

(** A thread inside a call holds the guard of that call. *)
Lemma inside_holding (V : DBTYPE) (s : Conc) (t : nat) (th : Thread) :
  LInv V s -> threads s !! t = Some th -> inside th = true ->
  exists c rest, todo th = c :: rest /\ holding V th = guard_of V c.
Proof.
  intros [Hphase _ _] Ht Hin. specialize (Hphase _ _ Ht Hin).
  destruct th as [ph [|c rest]]; [done|]. exists c, rest. split; [done|].
  by destruct ph.
Qed.

End GuardFacts.

(** X8. In every state of a run of [SingleMutexDatabase] at most one
    thread is inside a call ([readValue] or [updateValue]). *)
Theorem single_mutex_one_at_a_time (bodies : list (list Call)) (sched : list nat)
    (s : Conc) (t u : nat) (tht thu : Thread) :
  run_schedule SingleMutexDatabase sched (start bodies) = Some s ->
  threads s !! t = Some tht -> threads s !! u = Some thu ->
  inside tht = true -> inside thu = true ->
  t = u.
Proof.
  intros Hrun Ht Hu Hit Hiu.
  assert (LInv SingleMutexDatabase s) as Hinv
    by (eapply LInv_run; [apply LInv_start|done]).
  destruct (decide (t = u)) as [|Hne]; [done|exfalso].
  destruct (inside_holding _ _ _ _ Hinv Ht Hit) as (c & rest & _ & Hh).
  destruct (inside_holding _ _ _ _ Hinv Hu Hiu) as (c' & rest' & _ & Hh').
  assert (holding SingleMutexDatabase tht = Some (lock_guard 0)) as Hg
    by (rewrite Hh; by destruct c).
  assert (holding SingleMutexDatabase thu = Some (lock_guard 0)) as Hg'
    by (rewrite Hh'; by destruct c').
  pose proof (li_excl _ _ Hinv t u _ _ _ _ Hne Ht Hu Hg Hg') as Hc. done.
Qed.

(** X9. In every state of a run of [SharedMutexDatabase] a thread inside
    [updateValue] is the only thread inside a call. *)
Theorem shared_mutex_writer_excludes (bodies : list (list Call)) (sched : list nat)
    (s : Conc) (t u : nat) (tht thu : Thread) (i : nat) (v : Z) (rest : list Call) :
  run_schedule SharedMutexDatabase sched (start bodies) = Some s ->
  threads s !! t = Some tht -> threads s !! u = Some thu ->
  inside tht = true -> todo tht = CallUpdate i v :: rest ->
  inside thu = true ->
  t = u.
Proof.
  intros Hrun Ht Hu Hit Htodo Hiu.
  assert (LInv SharedMutexDatabase s) as Hinv
    by (eapply LInv_run; [apply LInv_start|done]).
  destruct (decide (t = u)) as [|Hne]; [done|exfalso].
  destruct (inside_holding _ _ _ _ Hinv Ht Hit) as (c & rest0 & Htd & Hh).
  destruct (inside_holding _ _ _ _ Hinv Hu Hiu) as (c' & rest' & _ & Hh').
  rewrite Htodo in Htd. injection Htd as <- <-.
  destruct c' as [j|j w].
  - pose proof (li_excl _ _ Hinv t u _ _ _ _ Hne Ht Hu Hh Hh') as Hc. done.
  - pose proof (li_excl _ _ Hinv t u _ _ _ _ Hne Ht Hu Hh Hh') as Hc. done.
Qed.

(** X10. In every state of a run of [SplitMutexDatabase] two threads inside
    calls are at indices that differ modulo 5. *)
Theorem split_mutex_shard_exclusive (bodies : list (list Call)) (sched : list nat)
    (s : Conc) (t u : nat) (tht thu : Thread) (c c' : Call) (rest rest' : list Call) :
  run_schedule SplitMutexDatabase sched (start bodies) = Some s ->
  threads s !! t = Some tht -> threads s !! u = Some thu ->
  inside tht = true -> todo tht = c :: rest ->
  inside thu = true -> todo thu = c' :: rest' ->
  t ≠ u ->
  (call_index c mod 5 ≠ call_index c' mod 5)%nat.
Proof.
  intros Hrun Ht Hu Hit Htodo Hiu Htodo' Hne.
  assert (LInv SplitMutexDatabase s) as Hinv
    by (eapply LInv_run; [apply LInv_start|done]).
  destruct (inside_holding _ _ _ _ Hinv Ht Hit) as (c0 & rest0 & Htd & Hh).
  destruct (inside_holding _ _ _ _ Hinv Hu Hiu) as (c1 & rest1 & Htd' & Hh').
  rewrite Htodo in Htd. injection Htd as <- <-.
  rewrite Htodo' in Htd'. injection Htd' as <- <-.
  assert (forall c, guard_of SplitMutexDatabase c = Some (lock_guard (call_index c mod 5)))
    as Hg by (by intros []).
  rewrite Hg in Hh, Hh'.
  pose proof (li_excl _ _ Hinv t u _ _ _ _ Hne Ht Hu Hh Hh') as Hc.
  simpl in Hc. by apply bool_decide_eq_false in Hc.
Qed.

(** ** Progress and termination *)

Section ProgressFacts.

Lemma RInv_start (bodies : list (list Call)) :
  (forall body c, body ∈ bodies -> c ∈ body ->
     (call_index c < Database.DATABASE_SIZE)%nat) ->
  RInv (start bodies).
Proof.
  intros Hrange. split; cbn [start data_ threads].
  - reflexivity.
  - intros t th c Hl Hc. apply lookup_map_spawn in Hl as (body & -> & Hb).
    eapply Hrange; [|exact Hc]. by eapply list_elem_of_lookup_2.
Qed.

Lemma RInv_exec (V : DBTYPE) (t : nat) (s s' : Conc) :
  RInv s -> exec V t s = Some s' -> RInv s'.
Proof.
  intros [Hlen Hrange] Hexec. unfold exec in Hexec.
  destruct (threads s !! t) as [[ph td]|] eqn:Ht; simpl in Hexec; [|done].
  destruct td as [|c rest]; [done|].
  pose proof (fun c' => Hrange _ _ c' Ht) as Hmine. cbn [todo] in Hmine.
  assert (forall th' d held',
            (forall c', c' ∈ todo th' -> c' ∈ c :: rest) ->
            length d = Database.DATABASE_SIZE ->
            RInv {| data_ := d; held := held'; threads := <[t := th']> (threads s) |}) as Hkeep.
  { intros th' d held' Hsub Hd. split; cbn [data_ threads]; [done|].
    intros u thu c' Hl Hc'. apply list_lookup_insert_Some in Hl as [(<- & <- & _)|[_ Hu]].
    - by apply Hmine, Hsub.
    - by eapply Hrange. }
  destruct ph as [| |x|].
  - destruct (guard_free (guard_of V c) (held s)); [|done].
    injection Hexec as <-. by apply Hkeep.
  - destruct (data_ s !! call_index c) as [x|]; simpl in Hexec; [|done].
    injection Hexec as <-. by apply Hkeep.
  - injection Hexec as <-. apply Hkeep; [done|]. by rewrite commit_length.
  - injection Hexec as <-. apply Hkeep; [|done].
    intros c' Hc'. by apply list_elem_of_further.
Qed.

Lemma RInv_run (V : DBTYPE) (sched : list nat) (s s' : Conc) :
  RInv s -> run_schedule V sched s = Some s' -> RInv s'.
Proof.
  revert s. induction sched as [|t sched IH]; intros s Hinv Hrun; simpl in Hrun.
  - by injection Hrun as <-.
  - destruct (exec V t s) as [s1|] eqn:Hexec; [|done]. simpl in Hrun.
    eapply IH; [|done]. by eapply RInv_exec.
Qed.

(** A thread inside a call is never stopped. *)
Lemma inside_can_step (V : DBTYPE) (s : Conc) (t : nat) (th : Thread) :
  LInv V s -> RInv s -> threads s !! t = Some th -> inside th = true ->
  is_Some (exec V t s).
Proof.
  intros Hl [Hlen Hrange] Ht Hin.
  pose proof (li_phase _ _ Hl _ _ Ht Hin) as Hne.
  unfold exec. rewrite Ht. cbn [mbind option_bind].
  destruct th as [ph [|c rest]]; [done|]. cbn [todo phase].
  destruct ph as [| |x|]; [done| |by eexists..].
  destruct (lookup_lt_is_Some_2 (data_ s) (call_index c)) as [x Hx].
  { rewrite Hlen. eapply Hrange; [done|]. apply list_elem_of_here. }
  rewrite Hx. by eexists.
Qed.

Lemma forallb_false_lookup {A} (f : A -> bool) (l : list A) :
  forallb f l = false -> exists i x, l !! i = Some x /\ f x = false.
Proof.
  induction l as [|a l IH]; simpl; [done|].
  destruct (f a) eqn:Ha; simpl.
  - intros Hl. destruct (IH Hl) as (i & x & Hi & Hx). by exists (S i), x.
  - intros _. by exists 0%nat, a.
Qed.

Lemma exec_weight (V : DBTYPE) (t : nat) (s s' : Conc) :
  exec V t s = Some s' -> steps_left s' = steps_left s - 1.
Proof.
  intros Hexec. unfold exec in Hexec.
  destruct (threads s !! t) as [[ph td]|] eqn:Ht; simpl in Hexec; [|done].
  destruct td as [|c rest]; [done|]. unfold steps_left.
  destruct ph as [| |x|].
  - destruct (guard_free (guard_of V c) (held s)); [|done].
    injection Hexec as <-. cbn [threads].
    rewrite (sumZ_insert _ _ _ _ _ Ht). unfold weight. cbn [phase todo]. lia.
  - destruct (data_ s !! call_index c) as [x|]; simpl in Hexec; [|done].
    injection Hexec as <-. cbn [threads set_thread].
    rewrite (sumZ_insert _ _ _ _ _ Ht). unfold weight. cbn [phase todo]. lia.
  - injection Hexec as <-. cbn [threads].
    rewrite (sumZ_insert _ _ _ _ _ Ht). unfold weight. cbn [phase todo]. lia.
  - injection Hexec as <-. cbn [threads].
    rewrite (sumZ_insert _ _ _ _ _ Ht). unfold weight. cbn [phase todo length]. lia.
Qed.

Lemma run_weight (V : DBTYPE) (sched : list nat) (s s' : Conc) :
  run_schedule V sched s = Some s' ->
  Z.of_nat (length sched) + steps_left s' = steps_left s.
Proof.
  revert s. induction sched as [|t sched IH]; intros s Hrun; simpl in Hrun.
  - injection Hrun as <-. simpl. lia.
  - destruct (exec V t s) as [s1|] eqn:Hexec; [|done]. simpl in Hrun.
    specialize (IH _ Hrun). apply exec_weight in Hexec. cbn [length]. lia.
Qed.

Lemma steps_left_start (bodies : list (list Call)) :
  steps_left (start bodies) = 4 * Z.of_nat (length (concat bodies)).
Proof.
  unfold steps_left, start. cbn [threads]. rewrite sumZ_map.
  induction bodies as [|b bodies IH]; [done|]. cbn [sumZ foldr concat].
  unfold sumZ in IH. rewrite IH, length_app. unfold weight, spawn. cbn [phase todo]. lia.
Qed.

Lemma weight_nonneg (V : DBTYPE) (s : Conc) (t : nat) (th : Thread) :
  LInv V s -> threads s !! t = Some th ->
  0 <= weight th /\ (weight th = 0 <-> finished th = true).
Proof.
  intros Hl Ht. pose proof (li_phase _ _ Hl _ _ Ht) as Hne.
  destruct th as [ph [|c rest]]; unfold weight, finished, inside in *;
    cbn [phase todo length] in *.
  - destruct ph; try (by exfalso; apply Hne). split; [lia|done].
  - destruct ph; (split; [lia|]); split; (done || lia).
Qed.

Lemma sumZ_nonneg_zero {A} (f : A -> Z) (l : list A) :
  (forall i x, l !! i = Some x -> 0 <= f x) ->
  0 <= sumZ f l /\ (sumZ f l = 0 <-> forall i x, l !! i = Some x -> f x = 0).
Proof.
  induction l as [|a l IH]; intros Hf.
  - split; [done|]. split; [by intros _ i x|done].
  - destruct IH as [Hs Hz]; [intros i x Hx; by apply (Hf (S i))|].
    pose proof (Hf 0%nat a eq_refl) as Ha. cbn [sumZ foldr]. fold (sumZ f l).
    split; [lia|]. split.
    + intros Hsum [|i] x Hx; simplify_eq/=; [lia|]. eapply Hz; [lia|done].
    + intros Hall. rewrite (Hall 0%nat a eq_refl).
      rewrite (proj2 Hz); [done|]. intros i x Hx. by apply (Hall (S i)).
Qed.

Lemma joined_steps_left (V : DBTYPE) (s : Conc) :
  LInv V s -> 0 <= steps_left s /\ (joined s = true <-> steps_left s = 0).
Proof.
  intros Hl. unfold steps_left, joined.
  destruct (sumZ_nonneg_zero weight (threads s)) as [Hs Hz].
  { intros i x Hx. by eapply weight_nonneg. }
  split; [done|]. rewrite Hz, forallb_forall. split.
  - intros Hall i x Hx. eapply weight_nonneg; [done..|].
    apply Hall. by eapply list_elem_of_In, list_elem_of_lookup_2.
  - intros Hall x Hx. apply list_elem_of_In, list_elem_of_lookup_1 in Hx as [i Hi].
    eapply weight_nonneg; [done..|]. by eapply Hall.
Qed.

End ProgressFacts.

(** X12. No deadlock, in any of the four classes: from every state of a
    run in which some thread has not returned, some thread has a step. *)
Theorem runs_never_deadlock (V : DBTYPE) (bodies : list (list Call))
    (sched : list nat) (s : Conc) :
  (forall body c, body ∈ bodies -> c ∈ body ->
     (call_index c < Database.DATABASE_SIZE)%nat) ->
  run_schedule V sched (start bodies) = Some s ->
  joined s = false ->
  exists t s', exec V t s = Some s'.
Proof.
  intros Hrange Hrun Hj.
  assert (LInv V s) as Hl by (eapply LInv_run; [apply LInv_start|done]).
  assert (RInv s) as Hr by (eapply RInv_run; [by apply RInv_start|done]).
  apply forallb_false_lookup in Hj as (t & th & Ht & Hfin).
  destruct (inside th) eqn:Hin.
  { destruct (inside_can_step V s t th Hl Hr Ht Hin) as [s' Hs']. by exists t, s'. }
  destruct th as [ph [|c rest]]; destruct ph; try done.
  destruct (guard_free (guard_of V c) (held s)) eqn:Hfree.
  - exists t. unfold exec. rewrite Ht. cbn. rewrite Hfree. by eexists.
  - destruct (guard_of V c) as [g|]; [|done]. cbn [guard_free] in Hfree.
    apply forallb_false_lookup in Hfree as (k & [u g'] & Hk & _).
    apply list_elem_of_lookup_2, (li_held _ _ Hl) in Hk as (thu & Hu & Hh).
    assert (inside thu = true) as Hiu by (by destruct thu as [[] ?]).
    destruct (inside_can_step V s u thu Hl Hr Hu Hiu) as [s' Hs']. by exists u, s'.
Qed.

(** X13. Every run ends: a run of bodies with [n] calls in all has at most
    [4 n] steps, and it has reached the join exactly when it has taken all
    [4 n]. *)
Theorem runs_are_bounded (V : DBTYPE) (bodies : list (list Call))
    (sched : list nat) (s : Conc) :
  run_schedule V sched (start bodies) = Some s ->
  (length sched <= 4 * length (concat bodies))%nat
  /\ (joined s = true <-> length sched = (4 * length (concat bodies))%nat).
Proof.
  intros Hrun.
  assert (LInv V s) as Hl by (eapply LInv_run; [apply LInv_start|done]).
  apply run_weight in Hrun. rewrite steps_left_start in Hrun.
  destruct (joined_steps_left V s Hl) as [Hs Hj]. rewrite Hj. lia.
Qed.

(** ** Two threads entering calls *)

Section OverlapFacts.

Lemma enter_two (V : DBTYPE) (c1 c2 : Call) (r1 r2 : list Call)
    (others : list (list Call)) :
  run_schedule V [0; 1]%nat (start ((c1 :: r1) :: (c2 :: r2) :: others))
  = if guard_free (guard_of V c2) (acquire 0 (guard_of V c1) []) then
      Some {| data_ := Database.new;
              held := acquire 1 (guard_of V c2) (acquire 0 (guard_of V c1) []);
              threads := {| phase := Entered; todo := c1 :: r1 |}
                         :: {| phase := Entered; todo := c2 :: r2 |}
                         :: map spawn others |}
    else None.
Proof.
  unfold start. cbn [map run_schedule].
  pose proof (exec_idle V Database.new [] [] (spawn (c2 :: r2) :: map spawn others) c1 r1)
    as H1. cbn [length app] in H1. rewrite H1. clear H1.
  assert (guard_free (guard_of V c1) [] = true) as -> by (by destruct (guard_of V c1)).
  cbn [mbind option_bind].
  pose proof (exec_idle V Database.new (acquire 0 (guard_of V c1) [])
                [{| phase := Entered; todo := c1 :: r1 |}] (map spawn others) c2 r2)
    as H2. cbn [length app] in H2. rewrite H2. clear H2.
  by destruct (guard_free _ _).
Qed.

End OverlapFacts.

(** X11. Thread 0 enters a call [c1] and thread 1 then tries to enter a
    call [c2]. If thread 1 gets in, both are inside their calls. It always
    gets in with [Database]; never with [SingleMutexDatabase]; with
    [SharedMutexDatabase] exactly when both calls are [readValue]; with
    [SplitMutexDatabase] exactly when the two indices differ modulo 5. *)
Theorem second_thread_enters (c1 c2 : Call) (r1 r2 : list Call)
    (others : list (list Call)) :
  let s0 := start ((c1 :: r1) :: (c2 :: r2) :: others) in
  (forall V,
     run_schedule V [0; 1]%nat s0 = None
     \/ exists hs,
          run_schedule V [0; 1]%nat s0
          = Some {| data_ := Database.new; held := hs;
                    threads := {| phase := Entered; todo := c1 :: r1 |}
                               :: {| phase := Entered; todo := c2 :: r2 |}
                               :: map spawn others |})
  /\ is_Some (run_schedule Database [0; 1]%nat s0)
  /\ run_schedule SingleMutexDatabase [0; 1]%nat s0 = None
  /\ (is_Some (run_schedule SharedMutexDatabase [0; 1]%nat s0)
      <-> exists i j, c1 = CallRead i /\ c2 = CallRead j)
  /\ (is_Some (run_schedule SplitMutexDatabase [0; 1]%nat s0)
      <-> (call_index c1 mod 5 ≠ call_index c2 mod 5)%nat).
Proof.
  cbv zeta. split; [|split; [|split; [|split]]].
  - intros V. rewrite enter_two. destruct (guard_free _ _); [right; by eexists|by left].
  - rewrite enter_two. by destruct c1, c2.
  - rewrite enter_two. by destruct c1, c2.
  - rewrite enter_two. destruct c1 as [i|i v], c2 as [j|j w]; cbn; split;
      try (by intros [? [=]]); try (by intros (? & ? & [=] & [=])); eauto.
    all: intros (? & ? & H1 & H2); try discriminate H1; discriminate H2.
  - rewrite enter_two.
    assert (forall c, guard_of SplitMutexDatabase c = Some (lock_guard (call_index c mod 5)))
      as Hg by (by intros []).
    rewrite !Hg. cbn [acquire guard_free forallb snd conflicts andb].
    change mutexes_size with 5%nat.
    destruct (decide (call_index c2 mod 5 = call_index c1 mod 5)%nat) as [He|Hne].
    + rewrite bool_decide_eq_true_2 by done. cbn. split; [by intros [? [=]]|].
      intros Hne. by destruct Hne.
    + rewrite bool_decide_eq_false_2 by done. cbn. split; [|by eexists].
      intros _ He. by destruct Hne.
Qed.

(** ** Threads run one after the other *)

Section SequentialRunFacts.

Lemma run_calls_app (cs1 cs2 : list Call) (d d1 : Table) :
  run_calls cs1 d = (Ok tt, d1) -> run_calls (cs1 ++ cs2) d = run_calls cs2 d1.
Proof.
  revert d. induction cs1 as [|c cs1 IH]; intros d Hrun; simpl in *.
  - by injection Hrun as ->.
  - unfold bind in *. destruct (run_call c d) as [[[]|e] d0]; [|done].
    by apply IH.
Qed.

(** A thread run alone through the first calls of its body: the table is
    the one the calls leave when executed through the methods of
    [Database]. *)
Lemma run_solo_calls (V : DBTYPE) (pre post : list Thread) (body rest : list Call)
    (d : Table) :
  (forall c, c ∈ body -> (call_index c < length d)%nat) ->
  exists d', run_calls body d = (Ok tt, d')
    /\ length d' = length d
    /\ run_schedule V (solo (length pre) (length body))
         {| data_ := d; held := []; threads := pre ++ spawn (body ++ rest) :: post |}
       = Some {| data_ := d'; held := []; threads := pre ++ spawn rest :: post |}.
Proof.
  revert d. induction body as [|c body IH]; intros d Hrange.
  - exists d. done.
  - destruct (lookup_lt_is_Some_2 d (call_index c)) as [x Hx].
    { apply Hrange, list_elem_of_here. }
    destruct (IH (commit c x d)) as (d' & Hcalls & Hlen & Hrun).
    { intros c' Hc'. rewrite commit_length. by apply Hrange, list_elem_of_further. }
    exists d'. split; [|split].
    + cbn [run_calls]. unfold bind at 1. by rewrite (run_call_commit _ _ _ Hx).
    + by rewrite Hlen, commit_length.
    + unfold solo in *. cbn [length].
      replace (4 * S (length body))%nat with (4 + 4 * length body)%nat by lia.
      rewrite replicate_add, run_schedule_app. cbn [app].
      rewrite (run_one_call _ _ _ _ _ _ _ Hx). exact Hrun.
Qed.

Lemma run_one_by_one_calls (V : DBTYPE) (bodies : list (list Call))
    (pre : list Thread) (d : Table) :
  (forall body c, body ∈ bodies -> c ∈ body -> (call_index c < length d)%nat) ->
  exists d', run_calls (concat bodies) d = (Ok tt, d')
    /\ length d' = length d
    /\ run_schedule V (one_by_one (length pre) bodies)
         {| data_ := d; held := []; threads := pre ++ map spawn bodies |}
       = Some {| data_ := d'; held := [];
                 threads := pre ++ map (fun _ => spawn []) bodies |}.
Proof.
  revert pre d. induction bodies as [|body bodies IH]; intros pre d Hrange.
  - exists d. done.
  - destruct (run_solo_calls V pre (map spawn bodies) body [] d)
      as (d1 & Hcalls1 & Hlen1 & Hrun1).
    { intros c Hc. eapply Hrange; [apply list_elem_of_here|done]. }
    destruct (IH (pre ++ [spawn []]) d1) as (d' & Hcalls & Hlen & Hrun).
    { intros b c Hb Hc. rewrite Hlen1. eapply Hrange; [by apply list_elem_of_further|done]. }
    exists d'. split; [|split; [congruence|]].
    + cbn [concat]. by rewrite (run_calls_app _ _ _ _ Hcalls1).
    + cbn [one_by_one map]. rewrite run_schedule_app.
      rewrite app_nil_r in Hrun1. rewrite Hrun1. cbn [mbind option_bind].
      rewrite length_app in Hrun. cbn [length] in Hrun.
      replace (length pre + 1)%nat with (S (length pre)) in Hrun by lia.
      rewrite <- !app_assoc in Hrun. exact Hrun.
Qed.

End SequentialRunFacts.

(** X14. In every class, the threads run one after the other in spawn
    order reach the join with the table that all their calls, executed in
    that order through the methods of [Database], leave on a fresh table:
    each cell holds the [int64_t] sum of the values added to it. *)
Theorem one_by_one_is_sequential (V : DBTYPE) (bodies : list (list Call)) :
  (forall body c, body ∈ bodies -> c ∈ body ->
     (call_index c < Database.DATABASE_SIZE)%nat) ->
  run_calls (concat bodies) Database.new
  = (Ok tt, table_after (concat bodies) Database.new)
  /\ run_schedule V (one_by_one 0 bodies) (start bodies)
     = Some {| data_ := table_after (concat bodies) Database.new; held := [];
               threads := map (fun _ => spawn []) bodies |}.
Proof.
  intros Hrange.
  assert (run_calls (concat bodies) Database.new
          = (Ok tt, table_after (concat bodies) Database.new)) as Hcalls.
  { apply run_calls_table; [apply wf_new|].
    intros c Hc. apply list_elem_of_In, in_concat in Hc as (body & Hb & Hc).
    eapply Hrange; by apply list_elem_of_In. }
  split; [done|].
  destruct (run_one_by_one_calls V bodies [] Database.new) as (d' & Hc' & _ & Hrun).
  { intros body c Hb Hc. by eapply Hrange. }
  rewrite Hcalls in Hc'. injection Hc' as <-. exact Hrun.
Qed.

Lemma one_by_one_is_sequential_witness :
  let bodies := [[CallUpdate 0 25; CallRead 0]; [CallUpdate 0 (-40)]] in
  run_calls (concat bodies) Database.new
  = (Ok tt, table_after (concat bodies) Database.new)
  /\ run_schedule SharedMutexDatabase (one_by_one 0 bodies) (start bodies)
     = Some {| data_ := table_after (concat bodies) Database.new; held := [];
               threads := map (fun _ => spawn []) bodies |}.
Proof.
  apply (one_by_one_is_sequential SharedMutexDatabase
           [[CallUpdate 0 25; CallRead 0]; [CallUpdate 0 (-40)]]).
  intros body c Hb Hc. unfold Database.DATABASE_SIZE.
  repeat (apply elem_of_cons in Hb as [->|Hb];
          [repeat (apply elem_of_cons in Hc as [->|Hc]; [simpl; lia|]);
           by apply not_elem_of_nil in Hc|]).
  by apply not_elem_of_nil in Hb.
Defined.

(** ** The lost update of the unlocked class *)

Section LostUpdateFacts.

Lemma race_run (d : Table) (c : nat) (x a b : Z) (post0 post1 : list Call)
    (ths : list Thread) :
  d !! c = Some x ->
  run_schedule Database race
    {| data_ := d; held := [];
       threads := spawn (CallUpdate c a :: post0)
                  :: spawn (CallUpdate c b :: post1) :: ths |}
  = Some {| data_ := <[c := Int.add64 x b]> d; held := [];
            threads := spawn post0 :: spawn post1 :: ths |}.
Proof.
  intros Hx. unfold race. cbn [run_schedule].
  pose proof (exec_idle_free Database d [] [] (spawn (CallUpdate c b :: post1) :: ths)
                (CallUpdate c a) post0 eq_refl) as H1.
  cbn [length app guard_of update_guard acquire] in H1. rewrite H1. clear H1.
  cbn [mbind option_bind].
  pose proof (exec_entered Database d [] [] (spawn (CallUpdate c b :: post1) :: ths)
                (CallUpdate c a) post0 x Hx) as H2.
  cbn [length app] in H2. rewrite H2. clear H2. cbn [mbind option_bind].
  pose proof (exec_idle_free Database d [] [{| phase := Loaded x; todo := CallUpdate c a :: post0 |}]
                ths (CallUpdate c b) post1 eq_refl) as H3.
  cbn [length app guard_of update_guard acquire] in H3. rewrite H3. clear H3.
  cbn [mbind option_bind].
  pose proof (exec_entered Database d [] [{| phase := Loaded x; todo := CallUpdate c a :: post0 |}]
                ths (CallUpdate c b) post1 x Hx) as H4.
  cbn [length app] in H4. rewrite H4. clear H4. cbn [mbind option_bind].
  pose proof (exec_loaded Database d [] []
                ({| phase := Loaded x; todo := CallUpdate c b :: post1 |} :: ths)
                (CallUpdate c a) post0 x) as H5.
  cbn [length app] in H5. rewrite H5. clear H5. cbn [mbind option_bind].
  pose proof (exec_done Database (commit (CallUpdate c a) x d) [] []
                ({| phase := Loaded x; todo := CallUpdate c b :: post1 |} :: ths)
                (CallUpdate c a) post0) as H6.
  cbn [length app] in H6. rewrite H6. clear H6. cbn [mbind option_bind].
  pose proof (exec_loaded Database (commit (CallUpdate c a) x d) (release 0 []) [spawn post0]
                ths (CallUpdate c b) post1 x) as H7.
  cbn [length app] in H7. rewrite H7. clear H7. cbn [mbind option_bind].
  pose proof (exec_done Database
                (commit (CallUpdate c b) x (commit (CallUpdate c a) x d)) (release 0 [])
                [spawn post0] ths (CallUpdate c b) post1) as H8.
  cbn [length app] in H8. rewrite H8. clear H8.
  cbn [commit]. by rewrite list_insert_insert_eq.
Qed.

Lemma mod_eq_ex (a b : Z) :
  a mod 2 ^ 64 = b mod 2 ^ 64 -> exists k, a = b + k * 2 ^ 64.
Proof.
  intros Hab. exists (a / 2 ^ 64 - b / 2 ^ 64).
  pose proof (Z.div_mod a (2 ^ 64)). pose proof (Z.div_mod b (2 ^ 64)). lia.
Qed.

Lemma forallb_lookup_false {A} (f : A -> bool) (l : list A) (i : nat) (x : A) :
  l !! i = Some x -> f x = false -> forallb f l = false.
Proof.
  intros Hl Hf. destruct (forallb f l) eqn:Hall; [|done].
  rewrite forallb_forall in Hall. rewrite Hall in Hf; [done|].
  by eapply list_elem_of_In, list_elem_of_lookup_2.
Qed.

Context `{UniformInt}.

Lemma updater_split (seeds : nat -> nat -> Z) (k c : nat) :
  (c < Database.DATABASE_SIZE)%nat ->
  exists pre post, updater seeds k = pre ++ CallUpdate c 25 :: post.
Proof.
  intros Hc. apply (getIndices_elem (seeds k 0%nat)) in Hc.
  apply list_elem_of_split in Hc as (l1 & l2 & Hl).
  exists (map (fun i => CallUpdate i 25) l1),
         (map (fun i => CallUpdate i 25) l2
          ++ updateAllInRandomOrder (-40) (seeds k 1%nat)
          ++ updateAllInRandomOrder 15 (seeds k 2%nat)).
  unfold updater, updateAllInRandomOrder at 1. rewrite Hl, map_app. cbn [map].
  by rewrite <- app_assoc.
Qed.

Lemma updater_head (seeds : nat -> nat -> Z) (k : nat) :
  exists c post, (c < Database.DATABASE_SIZE)%nat
    /\ updater seeds k = CallUpdate c 25 :: post.
Proof.
  pose proof (getIndices_perm (seeds k 0%nat)) as Hp.
  destruct (getIndicesInShuffledOrder (seeds k 0%nat)) as [|c p] eqn:Hg.
  { apply Permutation_length in Hp. done. }
  exists c. eexists. split.
  - apply (getIndices_elem (seeds k 0%nat)). rewrite Hg. apply list_elem_of_here.
  - unfold updater, updateAllInRandomOrder at 1. rewrite Hg. reflexivity.
Qed.

Lemma testDatabase_bodies_first_two (seeds : nat -> nat -> Z) :
  exists others,
    testDatabase_bodies seeds = updater seeds 0 :: updater seeds 1 :: others.
Proof. eexists. reflexivity. Qed.

(** X15. With the unlocked [Database], whatever seeds the threads read,
    some run of the 100 updaters and 1000 readers reaches the join with a
    cell at -25: [isAllZero()] returns false and the verdict printed is
    [FAILED!!!]. *)
Theorem unlocked_workload_can_fail (seeds : nat -> nat -> Z) :
  exists sched s c,
    run_schedule Database sched (start (testDatabase_bodies seeds)) = Some s
    /\ joined s = true
    /\ data_ s !! c = Some (-25)
    /\ Database.isAllZero (data_ s) = (Ok false, data_ s)
    /\ verdict_text (data_ s) = "FAILED!!!".
Proof.
  destruct (testDatabase_bodies_first_two seeds) as (others & Hbodies).
  destruct (updater_head seeds 0) as (c & post0 & Hc & Hb0).
  destruct (updater_split seeds 1 c Hc) as (pre1 & post1 & Hb1).
  assert (forall body c', body ∈ testDatabase_bodies seeds -> c' ∈ body ->
            (call_index c' < Database.DATABASE_SIZE)%nat) as Hrange
    by apply testDatabase_bodies_in_range.
  pose proof (testDatabase_bodies_delta seeds c Hc) as Hzero.
  rewrite Hbodies in Hrange, Hzero. rewrite Hb0, Hb1 in Hrange, Hzero.
  (* thread 1 alone up to its update of cell c *)
  assert (forall c', c' ∈ pre1 -> (call_index c' < Database.DATABASE_SIZE)%nat) as Hpre1.
  { intros c' Hc'. eapply (Hrange (pre1 ++ CallUpdate c 25 :: post1)).
    - apply list_elem_of_further, list_elem_of_here.
    - apply elem_of_app. by left. }
  destruct (run_solo_calls Database [spawn (CallUpdate c 25 :: post0)] (map spawn others)
              pre1 (CallUpdate c 25 :: post1) Database.new Hpre1)
    as (d1 & Hcalls1 & Hlen1 & Hrun1).
  destruct (run_calls_sum pre1 Database.new wf_new Hpre1) as (d1' & Hcalls1' & Hwf1 & Hsum1).
  rewrite Hcalls1 in Hcalls1'. injection Hcalls1' as <-.
  destruct (wf_lookup Database.new c wf_new Hc) as (x0 & Hx0 & _).
  destruct (Hsum1 _ _ Hx0) as (x & Hx & Hmodx).
  apply new_lookup in Hx0 as [-> _].
  (* the race *)
  pose proof (race_run d1 c x 25 25 post0 post1 (map spawn others) Hx) as Hrun2.
  (* the rest, one thread after the other *)
  set (d2 := <[c := Int.add64 x 25]> d1) in *.
  assert (Database.wf d2) as Hwf2 by (apply wf_insert; [done|apply add64_in_range]).
  assert (forall body c', body ∈ post0 :: post1 :: others -> c' ∈ body ->
            (call_index c' < length d2)%nat) as Hrange3.
  { intros body c' Hb Hc'. destruct Hwf2 as [-> _].
    apply elem_of_cons in Hb as [->|Hb]; [|apply elem_of_cons in Hb as [->|Hb]].
    - eapply (Hrange (CallUpdate c 25 :: post0)); [apply list_elem_of_here|].
      by apply list_elem_of_further.
    - eapply (Hrange (pre1 ++ CallUpdate c 25 :: post1)).
      + apply list_elem_of_further, list_elem_of_here.
      + apply elem_of_app. right. by apply list_elem_of_further.
    - eapply (Hrange body); [|done]. by do 2 apply list_elem_of_further. }
  destruct (run_one_by_one_calls Database (post0 :: post1 :: others) [] d2 Hrange3)
    as (d3 & Hcalls3 & Hlen3 & Hrun3).
  destruct (run_calls_sum (concat (post0 :: post1 :: others)) d2 Hwf2)
    as (d3' & Hcalls3' & Hwf3 & Hsum3).
  { intros c' Hc'. apply list_elem_of_In, in_concat in Hc' as (body & Hb & Hc').
    destruct Hwf2 as [<- _]. eapply Hrange3; by apply list_elem_of_In. }
  rewrite Hcalls3 in Hcalls3'. injection Hcalls3' as <-.
  destruct (Hsum3 c (Int.add64 x 25)) as (y & Hy & Hmody).
  { apply list_lookup_insert_eq. by eapply lookup_lt_Some. }
  (* the value of cell c at the join *)
  assert (y = -25) as ->.
  { rewrite sumZ_concat in Hmody. cbn [sumZ foldr] in Hmody, Hzero.
    rewrite sumZ_app in Hzero. cbn [sumZ foldr delta_on] in Hzero.
    rewrite decide_True in Hzero by done.
    fold (sumZ (delta_on c) post0) (sumZ (delta_on c) post1) (sumZ (delta_on c) pre1)
         (sumZ (sumZ (delta_on c)) others) in *.
    assert (y mod 2 ^ 64 = (x + 25 + (sumZ (delta_on c) post0 + (sumZ (delta_on c) post1
              + sumZ (sumZ (delta_on c)) others))) mod 2 ^ 64) as Hy'.
    { rewrite Hmody, Zplus_mod, add64_mod, <- Zplus_mod. done. }
    apply mod_eq_ex in Hy' as [k1 Hk1]. apply mod_eq_ex in Hmodx as [k2 Hk2].
    destruct Hwf3 as [_ Hr3]. rewrite Forall_lookup in Hr3.
    specialize (Hr3 _ _ Hy). unfold Int.in_int64 in Hr3. lia. }
  exists (solo 1 (length pre1) ++ race ++ one_by_one 0 (post0 :: post1 :: others)).
  eexists. exists c. split; [|split; [|split; [|split]]].
  - rewrite Hbodies, Hb0, Hb1. unfold start. cbn [map].
    rewrite run_schedule_app.
    change (spawn (CallUpdate c 25 :: post0)
            :: spawn (pre1 ++ CallUpdate c 25 :: post1) :: map spawn others)
      with ([spawn (CallUpdate c 25 :: post0)]
            ++ spawn (pre1 ++ CallUpdate c 25 :: post1) :: map spawn others).
    change 1%nat with (length [spawn (CallUpdate c 25 :: post0)]) at 1.
    rewrite Hrun1. cbn [mbind option_bind app]. rewrite run_schedule_app, Hrun2. cbn [mbind option_bind].
    exact Hrun3.
  - apply joined_all_spawn_nil.
  - exact Hy.
  - cbn [data_]. unfold Database.isAllZero. do 2 f_equal.
    by eapply forallb_lookup_false.
  - cbn [data_]. unfold verdict_text, Database.isAllZero.
    by rewrite (forallb_lookup_false _ _ _ _ Hy).
Qed.

End LostUpdateFacts.

(** ** The report of a locked class *)

Section LockedReportFacts.
Context `{UniformInt}.

Lemma all_zero_is_new (t : Table) :
  length t = Database.DATABASE_SIZE -> Forall (fun x => x = 0) t -> t = Database.new.
Proof.
  intros Hlen Hall. unfold Database.new. rewrite <- Hlen. clear Hlen.
  induction Hall as [|x t -> _ IH]; [done|]. cbn [length replicate]. by rewrite <- IH.
Qed.

(** X16. A run of [testDatabase] on a locked class that reaches the join
    leaves the table as the constructor made it, and the block it prints
    shows ten zeros and the verdict [Pass]. *)
Theorem locked_run_reports_pass (V : DBTYPE) (seeds : nat -> nat -> Z)
    (sched : list nat) (s : Conc) (elapsed : Z) :
  synchronized V = true ->
  run_schedule V sched (start (testDatabase_bodies seeds)) = Some s ->
  joined s = true ->
  data_ s = Database.new
  /\ lines (testDatabase_report V elapsed (data_ s) EmptyString)
     = [ "Results for " +:+ DATABASE_TYPE V +:+ ":";
         "  Elapsed Time:      " +:+ pretty elapsed +:+ "ms";
         "  Database Contents: 0 0 0 0 0 0 0 0 0 0 ";
         "  All Zero:          Pass";
         EmptyString ].
Proof.
  intros Hsync Hrun Hj.
  assert (CInv V s) as Hinv.
  { eapply CInv_run; [done| |done]. apply CInv_start.
    intros cell Hc. by apply testDatabase_bodies_delta. }
  assert (data_ s = Database.new) as ->.
  { apply all_zero_is_new; [apply Hinv|]. by eapply joined_all_zero. }
  split; [done|].
  rewrite testDatabase_report_text, string_app_nil_l.
  rewrite <- (string_app_nil_r (block_text _ _ _)), lines_block_text.
  reflexivity.
Qed.

End LockedReportFacts.

Lemma locked_run_reports_pass_witness :
  exists s,
    run_schedule SingleMutexDatabase
      (one_by_one 0 (@testDatabase_bodies mod_draw (fun k _ => Z.of_nat k)))
      (start (@testDatabase_bodies mod_draw (fun k _ => Z.of_nat k))) = Some s
    /\ joined s = true
    /\ data_ s = Database.new
    /\ lines (testDatabase_report SingleMutexDatabase 1234 (data_ s) EmptyString)
       = [ "Results for " +:+ DATABASE_TYPE SingleMutexDatabase +:+ ":";
           "  Elapsed Time:      " +:+ pretty 1234 +:+ "ms";
           "  Database Contents: 0 0 0 0 0 0 0 0 0 0 ";
           "  All Zero:          Pass";
           EmptyString ].
Proof.
  destruct (some_run_joins SingleMutexDatabase
              (@testDatabase_bodies mod_draw (fun k _ => Z.of_nat k))
              (@testDatabase_bodies_in_range mod_draw (fun k _ => Z.of_nat k)))
    as (s & Hrun & Hj).
  exists s. split; [exact Hrun|]. split; [exact Hj|].
  exact (@locked_run_reports_pass mod_draw SingleMutexDatabase (fun k _ => Z.of_nat k)
           _ s 1234 eq_refl Hrun Hj).
Defined.

(** ** The contents line *)

Section ContentsFacts.

Lemma no_space_pretty_N_char (x : N) : Ascii.eqb (pretty_N_char x) " " = false.
Proof. unfold pretty_N_char. by repeat case_match. Qed.

Lemma no_space_pretty_N_go (x : N) (s : string) :
  no_space s = true -> no_space (pretty_N_go x s) = true.
Proof.
  revert s. induction (N.lt_wf_0 x) as [x _ IH]; intros s Hs.
  destruct (decide (x = 0)%N) as [->|Hx].
  - by rewrite pretty_N_go_0.
  - rewrite pretty_N_go_step by lia. apply IH.
    + apply N.div_lt; lia.
    + cbn. by rewrite no_space_pretty_N_char.
Qed.

Lemma no_space_pretty_Z (x : Z) : no_space (pretty x) = true.
Proof.
  destruct x as [|p|p]; unfold pretty, pretty_Z; [done| |].
  - unfold pretty, pretty_positive, pretty, pretty_N.
    case_decide; [done|]. by apply no_space_pretty_N_go.
  - change ("-" +:+ pretty p) with (String "-"%char (pretty p)). cbn [no_space].
    unfold pretty, pretty_positive, pretty, pretty_N.
    case_decide; [done|]. by apply no_space_pretty_N_go.
Qed.

Lemma space_app (r : string) : " " +:+ r = String " "%char r.
Proof. reflexivity. Qed.

(** Two texts that agree, each a piece without space followed by a space:
    the pieces agree and so do the rests. *)
Lemma split_at_space (a b r r' : string) :
  no_space a = true -> no_space b = true ->
  a +:+ " " +:+ r = b +:+ " " +:+ r' -> a = b /\ r = r'.
Proof.
  rewrite !space_app.
  revert b. induction a as [|x a IH]; intros [|y b] Ha Hb Heq.
  - rewrite !string_app_nil_l in Heq. by injection Heq as ->.
  - rewrite string_app_nil_l, string_app_cons in Heq.
    injection Heq as <- _. done.
  - rewrite string_app_nil_l, string_app_cons in Heq.
    injection Heq as -> _. done.
  - rewrite !string_app_cons in Heq. injection Heq as -> Heq.
    cbn [no_space] in Ha, Hb.
    apply andb_true_iff in Ha as [_ Ha]. apply andb_true_iff in Hb as [_ Hb].
    destruct (IH b Ha Hb Heq) as [-> ->]. done.
Qed.

Lemma cells_text_cons (x : Z) (t : Table) :
  cells_text (x :: t) = pretty x +:+ " " +:+ cells_text t.
Proof. reflexivity. Qed.

Lemma cells_text_inj (db db' : Table) : cells_text db = cells_text db' -> db = db'.
Proof.
  revert db'. induction db as [|x db IH]; intros [|y db'] Heq.
  - done.
  - rewrite cells_text_cons in Heq. cbn [cells_text foldr] in Heq.
    destruct (pretty y); discriminate Heq.
  - rewrite cells_text_cons in Heq. cbn [cells_text foldr] in Heq.
    destruct (pretty x); discriminate Heq.
  - rewrite !cells_text_cons in Heq.
    apply split_at_space in Heq as [Hxy Hrest]; try apply no_space_pretty_Z.
    apply (inj pretty) in Hxy as ->. by rewrite (IH _ Hrest).
Qed.

End ContentsFacts.

(** X17. The contents line of a block determines the table: two tables
    are printed alike by [operator<<] only when they are equal, and the
    line has one space for each cell. *)
Theorem contents_line_determines_table (db db' : Table) :
  (cells_text db = cells_text db' <-> db = db')
  /\ put_database EmptyString db = cells_text db
  /\ length (filter (fun c => c = " "%char) (String.list_ascii_of_string (cells_text db)))
     = length db.
Proof.
  split; [|split].
  - split; [apply cells_text_inj|by intros ->].
  - by rewrite put_database_cells, string_app_nil_l.
  - induction db as [|x db IH]; [done|]. rewrite cells_text_cons.
    assert (forall a r, no_space a = true ->
              length (filter (fun c => c = " "%char) (String.list_ascii_of_string (a +:+ " " +:+ r)))
              = S (length (filter (fun c => c = " "%char) (String.list_ascii_of_string r)))) as Hcount.
    { intros a r. rewrite space_app. induction a as [|c a IHa]; intros Ha.
      - rewrite string_app_nil_l.
        cbn [String.list_ascii_of_string]. by rewrite filter_cons_True.
      - rewrite string_app_cons. cbn [String.list_ascii_of_string no_space] in *.
        apply andb_true_iff in Ha as [Hc Ha]. rewrite filter_cons_False.
        + by apply IHa.
        + intros ->. done. }
    rewrite Hcount by apply no_space_pretty_Z. cbn [length]. by rewrite IH.
Qed.

(** ** More on the spawn loops *)

Module SpawnFacts.
Import Harness.

Lemma Inv2_init : Inv2 init.
Proof.
  split; cbn.
  - intros i j e e' Hi. by rewrite lookup_nil in Hi.
  - done.
  - intros w k c Hw. by rewrite lookup_nil in Hw.
Qed.

Lemma Inv2_act (a : Action) (s s' : State) :
  Harness.Inv s -> Inv2 s -> act a s = Some s' -> Inv2 s'.
Proof.
  intros [Hsize Hroom Hw Hlog] [Hmono Hcount Horder] Hact.
  destruct a as [| |w]; cbn in Hact.
  - destruct (constructing s) eqn:Hc; cbn in Hact; [done|].
    case_bool_decide; [|done]. injection Hact as <-.
    split; cbn [size constructing workers log].
    + done.
    + rewrite length_app, Hcount. cbn. lia.
    + intros w k c Hl. apply lookup_app_Some in Hl as [Hl|[Hge Hl]].
      * by eapply Horder.
      * apply list_lookup_singleton_Some in Hl as [Hz [= <- <-]].
        rewrite Hcount in Hge, Hz. split; [lia|].
        replace w with (size s) by lia. done.
  - destruct (constructing s) eqn:Hc; [|done]. injection Hact as <-.
    split; cbn [size constructing workers log]; [done|lia|done].
  - destruct (workers s !! w) as [[k [|c]]|] eqn:Hl; try done.
    injection Hact as <-. split; cbn [size constructing workers log].
    + intros [|i] [|j] e e' Hi Hj Hij; simplify_eq/=; try lia.
      * destruct e' as [k' sd']. cbn.
        assert ((k', sd') ∈ log s) as Hin by (by eapply list_elem_of_lookup_2).
        specialize (Hlog _ _ Hin). lia.
      * eapply (Hmono i j); [done..|lia].
    + by rewrite length_insert.
    + intros w' k' c' Hl'. apply list_lookup_insert_Some in Hl' as [(<- & [= <- <-] & _)|[_ Hl']].
      * destruct (Horder _ _ _ Hl) as [-> Hle]. split; [done|lia].
      * by eapply Horder.
Qed.

Lemma Inv2_run (acts : list Action) (s s' : State) :
  Harness.Inv s -> Inv2 s -> run acts s = Some s' -> Inv2 s'.
Proof.
  revert s. induction acts as [|a acts IH]; intros s Hinv Hinv2 Hrun; cbn in Hrun.
  - by injection Hrun as <-.
  - destruct (act a s) as [s1|] eqn:Hact; [|done]. cbn in Hrun.
    eapply IH; [| |done]; [by eapply HarnessFacts.Inv_act|by eapply Inv2_act].
Qed.

Lemma Inv2_reachable (s : State) : reachable s -> Inv2 s.
Proof.
  intros [acts Hrun].
  eapply Inv2_run; [apply HarnessFacts.Inv_init|apply Inv2_init|done].
Qed.

End SpawnFacts.



(** X19. The workers stand in spawn order: the worker at position [w] has
    spawn index [w], is one of at most 1100, and has at most 3 routine
    calls to make when [w < 100] and at most 1 otherwise; the vector counts
    every worker but the one being constructed. *)
Theorem workers_in_spawn_order (s : Harness.State) (w k c : nat) :
  Harness.reachable s ->
  Harness.workers s !! w = Some (k, c) ->
  k = w
  /\ (w < 1100)%nat
  /\ (c <= if decide (w < 100)%nat then 3 else 1)%nat
  /\ length (Harness.workers s)
     = (Harness.size s + if Harness.constructing s then 1 else 0)%nat.
Proof.
  intros Hr Hl. pose proof (HarnessFacts.Inv_reachable _ Hr) as [Hsize Hroom _ _].
  apply SpawnFacts.Inv2_reachable in Hr as [_ Hcount Horder].
  destruct (Horder _ _ _ Hl) as [-> Hc].
  split; [done|]. split; [|split; [exact Hc|exact Hcount]].
  apply lookup_lt_Some in Hl. rewrite Hcount in Hl.
  unfold Harness.TOTAL, NUM_UPDATERS, NUM_READERS in *.
  destruct (Harness.constructing s); [specialize (Hroom eq_refl)|]; lia.
Qed.

Lemma workers_in_spawn_order_witness :
  0%nat = 0%nat
  /\ (0 < 1100)%nat
  /\ (2 <= if decide (0 < 100)%nat then 3 else 1)%nat
  /\ length [(0, 2)]%nat = (1 + if false then 1 else 0)%nat.
Proof.
  apply (workers_in_spawn_order
           {| Harness.size := 1; Harness.constructing := false;
              Harness.workers := [(0, 2)]%nat; Harness.log := [(0%nat, 1)] |} 0 0 2).
  - exists Harness.late_call. reflexivity.
  - reflexivity.
Defined.

Lemma single_mutex_one_at_a_time_witness : 0%nat = 0%nat.
Proof.
  apply (single_mutex_one_at_a_time [[CallRead 0]; [CallUpdate 1 25]] [0; 0]%nat
           {| data_ := Database.new; held := [(0%nat, lock_guard 0)];
              threads := [ {| phase := Loaded 0; todo := [CallRead 0] |};
                           spawn [CallUpdate 1 25] ] |}
           0 0 {| phase := Loaded 0; todo := [CallRead 0] |}
           {| phase := Loaded 0; todo := [CallRead 0] |});
    reflexivity.
Defined.

Lemma shared_mutex_writer_excludes_witness : 1%nat = 1%nat.
Proof.
  apply (shared_mutex_writer_excludes [[CallRead 0]; [CallUpdate 1 25]] [1]%nat
           {| data_ := Database.new; held := [(1%nat, unique_lock)];
              threads := [ spawn [CallRead 0];
                           {| phase := Entered; todo := [CallUpdate 1 25] |} ] |}
           1 1 {| phase := Entered; todo := [CallUpdate 1 25] |}
           {| phase := Entered; todo := [CallUpdate 1 25] |} 1 25 []);
    reflexivity.
Defined.

Lemma split_mutex_shard_exclusive_witness :
  (call_index (CallUpdate 0 25) mod 5 ≠ call_index (CallRead 6) mod 5)%nat.
Proof.
  apply (split_mutex_shard_exclusive [[CallUpdate 0 25]; [CallRead 6]] [0; 1]%nat
           {| data_ := Database.new;
              held := [(1%nat, lock_guard 1); (0%nat, lock_guard 0)];
              threads := [ {| phase := Entered; todo := [CallUpdate 0 25] |};
                           {| phase := Entered; todo := [CallRead 6] |} ] |}
           0 1 {| phase := Entered; todo := [CallUpdate 0 25] |}
           {| phase := Entered; todo := [CallRead 6] |}
           (CallUpdate 0 25) (CallRead 6) [] []);
    try reflexivity.
  discriminate.
Defined.

Lemma runs_never_deadlock_witness :
  exists t s',
    exec SharedMutexDatabase t
      {| data_ := Database.new; held := [(1%nat, unique_lock)];
         threads := [ spawn [CallRead 0];
                      {| phase := Entered; todo := [CallUpdate 1 25] |} ] |}
    = Some s'.
Proof.
  apply (runs_never_deadlock SharedMutexDatabase [[CallRead 0]; [CallUpdate 1 25]] [1]%nat).
  - intros body c Hb Hc. unfold Database.DATABASE_SIZE.
    repeat (apply elem_of_cons in Hb as [->|Hb];
            [repeat (apply elem_of_cons in Hc as [->|Hc]; [simpl; lia|]);
             by apply not_elem_of_nil in Hc|]).
    by apply not_elem_of_nil in Hb.
  - reflexivity.
  - reflexivity.
Defined.

Lemma runs_are_bounded_witness :
  (length [1]%nat <= 4 * length (concat [[CallRead 0]; [CallUpdate 1 25]]))%nat
  /\ (joined {| data_ := Database.new; held := [(1%nat, unique_lock)];
                threads := [ spawn [CallRead 0];
                             {| phase := Entered; todo := [CallUpdate 1 25] |} ] |} = true
      <-> length [1]%nat = (4 * length (concat [[CallRead 0]; [CallUpdate 1 25]]))%nat).
Proof.
  apply (runs_are_bounded SharedMutexDatabase [[CallRead 0]; [CallUpdate 1 25]] [1]%nat).
  reflexivity.
Defined.
